(** * A shallow embedding of the glyphLog logging pipeline and its sinks.

    Sources embedded:
    - [src/unnamed/part_001]            BaseLogger (log, processEntry, writeToTransports, fatal)
    - [src/src/loggers/Logger.ts]       Logger.child
    - [src/unnamed/part_005]            FileTransport (log, rotate)
    - [src/src/transports/HttpTransport.ts]   HttpTransport (log, flush)
    - [src/src/transports/MemoryTransport.ts] MemoryTransport (log, getLogs)
    - [src/src/formatters/*.ts]         JsonFormatter, SimpleFormatter, ConsoleFormatter
    - [src/src/loggers/Logger.ts]       time, timeEnd, profile, profileEnd, getStats
    - [src/src/loggers/index.ts]        the Logger the factory builds (log, close, child)
    - [src/src/factory.ts]              LoggerFactory, createLogger, middleware, sanitizeObject

    Conventions: a JavaScript exception is the [Throw] branch of [outcome];
    JavaScript objects that can be shared or cyclic live in an explicit heap;
    a text is held as its UTF-8 bytes, so [String.length] is the number of
    bytes the text takes in a file. Resource exhaustion (memory, call-stack
    depth) is not modelled. *)

From Stdlib Require Import List String Ascii ZArith Lia Bool Arith.
From Stdlib Require Import DecimalString DecimalZ Permutation.
Import ListNotations.

(** ** Exceptions and outcomes *)

Inductive exn : Type :=
| TypeError_circular   (* JSON.stringify: "Converting circular structure to JSON" *)
| TypeError_bigint     (* JSON.stringify: "Do not know how to serialize a BigInt" *)
| TypeError_readonly   (* strict mode: "Cannot assign to read only property" *)
| CallbackFailure      (* raised by code a property read or JSON.stringify runs:
                          a getter, a toJSON method (such as an invalid Date's) *)
| SinkFailure          (* any failure raised by a transport's log method *)
| MiddlewareFailure    (* any failure raised by user middleware *)
| OutOfFuel.           (* never reached with the fuel the definitions supply *)

Inductive outcome (A : Type) : Type :=
| Ok (a : A)
| Throw (e : exn).
Arguments Ok {A} a.
Arguments Throw {A} e.

(** ** Log levels: [src/src/types/enums/log-level.enum.ts] *)

Inductive LogLevel : Type := TRACE | DEBUG | INFO | WARN | ERROR | FATAL.

(** The numeric value of each enum member. *)
Definition lvl (l : LogLevel) : Z :=
  match l with
  | TRACE => 0 | DEBUG => 1 | INFO => 2 | WARN => 3 | ERROR => 4 | FATAL => 5
  end.

(** [LogLevel[l]], the reverse mapping of a numeric enum. *)
Definition level_name (l : LogLevel) : string :=
  (match l with
  | TRACE => "TRACE" | DEBUG => "DEBUG" | INFO => "INFO"
  | WARN => "WARN" | ERROR => "ERROR" | FATAL => "FATAL"
  end)%string.

(** ** JavaScript values and JSON.stringify *)
Module Json.
Local Open Scope string_scope.

(** A JavaScript value reachable from an entry's context or meta. Objects are
    references into a heap, so that sharing and cycles can be expressed.
    [VUndefined] also stands for the values JSON.stringify omits (functions,
    symbols). [VGetterRaises] is a property whose getter raises when read;
    [VToJSONRaises] an object whose [toJSON] method raises. *)
Inductive value : Type :=
| VUndefined
| VNull
| VBool (b : bool)
| VNum (z : Z)
| VBigInt (z : Z)
| VStr (s : string)
| VRef (a : nat)
| VGetterRaises
| VToJSONRaises.

(** An object: its own enumerable properties in insertion order. *)
Definition obj := list (string * value).
Definition heap := list (nat * obj).

Fixpoint lookup (h : heap) (a : nat) : option obj :=
  match h with
  | [] => None
  | (b, o) :: h' => if Nat.eqb a b then Some o else lookup h' a
  end.

Definition chr (n : nat) : string := String (ascii_of_nat n) EmptyString.
Definition dquote : string := chr 34.

(** A lower-case hexadecimal digit. *)
Definition hex_digit (d : nat) : string :=
  if Nat.ltb d 10 then chr (48 + d) else chr (87 + d).

(** String escaping of JSON.stringify (QuoteJSONString): the quote and the
    backslash are preceded by a backslash, the control characters below 32
    become [\b], [\t], [\n], [\f], [\r] or [\u00xx]; other bytes, those of
    non-ASCII characters included, are copied. *)
Fixpoint escape (s : string) : string :=
  match s with
  | EmptyString => EmptyString
  | String c r =>
      let n := nat_of_ascii c in
      if Nat.eqb n 34 then chr 92 ++ chr 34 ++ escape r
      else if Nat.eqb n 92 then chr 92 ++ chr 92 ++ escape r
      else if Nat.eqb n 8 then chr 92 ++ "b" ++ escape r
      else if Nat.eqb n 9 then chr 92 ++ "t" ++ escape r
      else if Nat.eqb n 10 then chr 92 ++ "n" ++ escape r
      else if Nat.eqb n 12 then chr 92 ++ "f" ++ escape r
      else if Nat.eqb n 13 then chr 92 ++ "r" ++ escape r
      else if Nat.ltb n 32 then chr 92 ++ "u00" ++ hex_digit (n / 16) ++ hex_digit (n mod 16) ++ escape r
      else String c (escape r)
  end.

Definition quote (s : string) : string := dquote ++ escape s ++ dquote.

Definition number_text (z : Z) : string := NilZero.string_of_int (Z.to_int z).

Fixpoint join (sep : string) (xs : list string) : string :=
  match xs with
  | [] => EmptyString
  | [x] => x
  | x :: r => x ++ sep ++ join sep r
  end.

(** The members of an object literal, each serialised by [f]: a member whose
    value serialises to [undefined] is omitted; the first exception wins. *)
Fixpoint members {X : Type} (f : X -> outcome (option string))
    (ps : list (string * X)) : outcome (list string) :=
  match ps with
  | [] => Ok []
  | (k, x) :: ps' =>
      match f x with
      | Throw e => Throw e
      | Ok r =>
          match members f ps' with
          | Throw e => Throw e
          | Ok rs =>
              match r with
              | None => Ok rs
              | Some t => Ok ((quote k ++ ":" ++ t) :: rs)
              end
          end
      end
  end.

Definition object_text (rs : list string) : string := "{" ++ join "," rs ++ "}".

(** [JSON.stringify] on a value, with [stack] the objects currently being
    serialised: meeting one of them again raises the circular-structure
    TypeError. [None] is the [undefined] result (the member is omitted). *)
Fixpoint stringify_val (fuel : nat) (h : heap) (stack : list nat) (v : value)
  : outcome (option string) :=
  match v with
  | VUndefined => Ok None
  | VNull => Ok (Some "null")
  | VBool true => Ok (Some "true")
  | VBool false => Ok (Some "false")
  | VNum z => Ok (Some (number_text z))
  | VBigInt _ => Throw TypeError_bigint
  | VStr s => Ok (Some (quote s))
  | VGetterRaises => Throw CallbackFailure
  | VToJSONRaises => Throw CallbackFailure
  | VRef a =>
      if existsb (Nat.eqb a) stack then Throw TypeError_circular
      else match fuel with
           | O => Throw OutOfFuel
           | S fuel' =>
               let o := match lookup h a with Some o => o | None => [] end in
               match members (stringify_val fuel' h (a :: stack)) o with
               | Throw e => Throw e
               | Ok rs => Ok (Some (object_text rs))
               end
           end
  end.

(** The fuel that is always enough: one more than the heap size. *)
Definition stringify (h : heap) (v : value) : outcome (option string) :=
  stringify_val (S (List.length h)) h [] v.

(** A member of an object literal built by a formatter itself: a value, or a
    fresh nested literal of values (such as the [error] member). Fresh objects
    are never on the stack of objects being serialised. *)
Inductive field : Type :=
| FVal (v : value)
| FObj (ps : list (string * value)).

Definition stringify_field (h : heap) (f : field) : outcome (option string) :=
  match f with
  | FVal v => stringify h v
  | FObj ps =>
      match members (stringify h) ps with
      | Throw e => Throw e
      | Ok rs => Ok (Some (object_text rs))
      end
  end.

(** [JSON.stringify] of a fresh object literal. *)
Definition stringify_literal (h : heap) (ps : list (string * field)) : outcome string :=
  match members (stringify_field h) ps with
  | Throw e => Throw e
  | Ok rs => Ok (object_text rs)
  end.

(** The exceptions JSON.stringify itself raises or lets through. *)
Definition stringify_error (ex : exn) : bool :=
  match ex with
  | TypeError_circular | TypeError_bigint | CallbackFailure => true
  | _ => false
  end.

(** The result is a text, or one of the exceptions of JSON.stringify. *)
Definition only_json_errors {A : Type} (o : outcome A) : Prop :=
  match o with
  | Ok _ => True
  | Throw ex => stringify_error ex = true
  end.

End Json.

Import Json.

(** ** Log entries: [src/unnamed/part_002] *)

(** [Error]: name, message and the optional stack text. *)
Record ErrorInfo : Type := mkError {
  err_name : string;
  err_message : string;
  err_stack : option string
}.

(** [LogEntry]. The [Date] timestamp is represented by the text its
    [toISOString] returns; [context] and [meta] are objects, hence heap
    references. *)
Record LogEntry : Type := mkEntry {
  level : LogLevel;
  message : string;
  timestamp : string;
  context : option nat;
  error : option ErrorInfo;
  meta : option nat
}.

Definition set_level (l : LogLevel) (e : LogEntry) : LogEntry :=
  mkEntry l (message e) (timestamp e) (context e) (error e) (meta e).

(** ** Formatters: [src/src/formatters/JsonFormatter.ts], [SimpleFormatter.ts] *)
Module Formatters.
Local Open Scope string_scope.

(** [JsonFormatter.format]: the object literal, then [JSON.stringify]. *)
Definition json_literal (e : LogEntry) : list (string * field) :=
  [("timestamp", FVal (VStr (timestamp e)));
   ("level", FVal (VStr (level_name (level e))));
   ("message", FVal (VStr (message e)))]
  ++ (match context e with Some c => [("context", FVal (VRef c))] | None => [] end)
  ++ (match error e with
      | Some er =>
          [("error", FObj [("name", VStr (err_name er));
                           ("message", VStr (err_message er));
                           ("stack", match err_stack er with
                                     | Some s => VStr s
                                     | None => VUndefined
                                     end)])]
      | None => []
      end)
  ++ (match meta e with Some m => [("meta", FVal (VRef m))] | None => [] end).

Definition JsonFormatter_format (h : heap) (e : LogEntry) : outcome string :=
  stringify_literal h (json_literal e).

Definition nl : string := chr 10.

(** [SimpleFormatter.format]. [LogLevel[l].toUpperCase()] is [level_name l]:
    the enum member names are already upper case. *)
Definition SimpleFormatter_format (h : heap) (e : LogEntry) : outcome string :=
  let base := timestamp e ++ " [" ++ level_name (level e) ++ "] " ++ message e in
  let with_context :=
    match context e with
    | Some c =>
        match lookup h c with
        | Some (_ :: _) =>
            match stringify h (VRef c) with
            | Throw ex => Throw ex
            | Ok (Some t) => Ok (base ++ " " ++ t)
            | Ok None => Ok (base ++ " undefined")
            end
        | _ => Ok base
        end
    | None => Ok base
    end in
  match with_context with
  | Throw ex => Throw ex
  | Ok s =>
      match error e with
      | Some er =>
          let s := s ++ " ERROR: " ++ err_message er in
          match err_stack er with
          | Some st => if String.eqb st "" then Ok s else Ok (s ++ nl ++ "STACK: " ++ st)
          | None => Ok s
          end
      | None => Ok s
      end
  end.

End Formatters.

(** ** The core logger: [src/unnamed/part_001] (BaseLogger) *)
Module Pipeline.

(** What a transport's [log(entry)] does when called: return normally
    (a [void] result or an already settled promise), raise synchronously, or
    return a pending promise that later fulfils ([true]) or rejects
    ([false]). *)
Inductive delivery : Type :=
| Returned
| RaisedSync
| Pending (fulfils : bool).

(** [LogTransport]: a name, an optional minimum level and the [log] method. *)
Record LogTransport : Type := mkTransport {
  name : string;
  transport_level : option LogLevel;
  transport_log : LogEntry -> delivery
}.

(** Observable events. [Delivered i n e]: [log] of the transport at position
    [i] (named [n]) is called with [e]. [Completed i e]: the pending promise
    of that call fulfilled (the sink's asynchronous work, such as a file
    append, took effect). [Reported i]: [console.error] of the fan-out for
    that transport. [Invoked i e]: middleware number [i] is called with [e].
    [FanOut e]: [writeToTransports(e)] starts. [Exited]: [process.exit(1)]. *)
Inductive event : Type :=
| Invoked (i : nat) (e : LogEntry)
| FanOut (e : LogEntry)
| Delivered (i : nat) (n : string) (e : LogEntry)
| Completed (i : nat) (e : LogEntry)
| Reported (i : nat)
| Exited.

(** The transport-level gate of [writeToTransports]. *)
Definition passes_transport (t : LogTransport) (e : LogEntry) : bool :=
  match transport_level t with
  | None => true
  | Some l => (lvl l <=? lvl (level e))%Z
  end.

(** One callback of [this.transports.map(async (transport) => ...)]: the part
    that runs before its first suspension, and the part that runs after it. *)
Definition deliver_one (i : nat) (t : LogTransport) (e : LogEntry)
  : list event * list event :=
  if passes_transport t e then
    match transport_log t e with
    | Returned => ([Delivered i (name t) e], [])
    | RaisedSync => ([Delivered i (name t) e; Reported i], [])
    | Pending true => ([Delivered i (name t) e], [Completed i e])
    | Pending false => ([Delivered i (name t) e], [Reported i])
    end
  else ([], []).

Fixpoint fan_out (i : nat) (ts : list LogTransport) (e : LogEntry)
  : list event * list event :=
  match ts with
  | [] => ([], [])
  | t :: ts' =>
      let '(now1, later1) := deliver_one i t e in
      let '(now2, later2) := fan_out (S i) ts' e in
      (now1 ++ now2, later1 ++ later2)
  end.

(** [writeToTransports(entry)]: events that happen before it returns its
    (unawaited) promise, and events left to the event loop. Every callback is
    wrapped in try/catch, so it never raises. *)
Definition writeToTransports (ts : list LogTransport) (e : LogEntry)
  : list event * list event :=
  let '(now, later) := fan_out 0 ts e in (FanOut e :: now, later).

(** A middleware [(entry, next) => ...] as the straight-line program it runs
    on the entry it is given: mutate the shared entry, call [next()], or
    raise. *)
Inductive action : Type :=
| Mutate (f : LogEntry -> LogEntry)
| Proceed
| Raise.

Definition LogMiddleware := LogEntry -> list action.

(** The state of one [processEntry] call: the shared cursor [index], the
    shared [entry], and the events so far (synchronous and deferred). *)
Record run_state : Type := mkRun {
  index : nat;
  entry : LogEntry;
  trace : list event;
  deferred : list event
}.

Inductive res : Type :=
| Normal (st : run_state)
| Raised (ex : exn) (st : run_state).

Definition res_state (r : res) : run_state :=
  match r with Normal st => st | Raised _ st => st end.

Definition dispatch (ts : list LogTransport) (st : run_state) : run_state :=
  let '(now, later) := writeToTransports ts (entry st) in
  mkRun (index st) (entry st) (trace st ++ now) (deferred st ++ later).

(** Running a middleware's program; [k] is the continuation [next]. *)
Fixpoint run_actions (k : run_state -> res) (acts : list action) (st : run_state) : res :=
  match acts with
  | [] => Normal st
  | Mutate f :: r =>
      run_actions k r (mkRun (index st) (f (entry st)) (trace st) (deferred st))
  | Proceed :: r =>
      match k st with
      | Normal st' => run_actions k r st'
      | Raised ex st' => Raised ex st'
      end
  | Raise :: _ => Raised MiddlewareFailure st
  end.

(** [next] of [processEntry]: while [index < this.middleware.length], call
    [this.middleware[index++]](entry, next); otherwise [writeToTransports].
    The fuel bounds the nesting of [next] calls; [length ms] is enough
    ([next_total]). *)
Fixpoint next (fuel : nat) (ms : list LogMiddleware) (ts : list LogTransport)
    (st : run_state) : res :=
  match nth_error ms (index st) with
  | None => Normal (dispatch ts st)
  | Some m =>
      match fuel with
      | O => Raised OutOfFuel st
      | S f =>
          let st1 := mkRun (S (index st)) (entry st)
                       (trace st ++ [Invoked (index st) (entry st)]) (deferred st) in
          run_actions (next f ms ts) (m (entry st)) st1
      end
  end.

Definition processEntry (ms : list LogMiddleware) (ts : list LogTransport)
    (e : LogEntry) : res :=
  next (List.length ms) ms ts (mkRun 0 e [] []).

(** The fields of [BaseLogger] used by [log]. [defaultMeta] is the address
    of the default metadata object. *)
Record Logger : Type := mkLogger {
  logger_level : LogLevel;
  transports : list LogTransport;
  defaultMeta : nat;
  exitOnError : bool;
  silent : bool;
  middleware : list LogMiddleware
}.

(** [BaseLogger.log]. [now] is the ISO text of [new Date()] and [meta_copy]
    the address of the fresh object [{ ...this.defaultMeta }] allocated by the
    call. [None]: the call returned at the gate. *)
Definition log (lg : Logger) (l : LogLevel) (msg : string) (ctx : option nat)
    (err : option ErrorInfo) (now : string) (meta_copy : nat) : option res :=
  if silent lg || (lvl l <? lvl (logger_level lg))%Z then None
  else Some (processEntry (middleware lg) (transports lg)
               (mkEntry l msg now ctx err (Some meta_copy))).

(** What the application observes of a call: the events, in the order they
    happen, once the event loop has run; and the exception the call raised
    to its caller, if any. *)
Definition observe (r : option res) : list event * option exn :=
  match r with
  | None => ([], None)
  | Some (Normal st) => (trace st ++ deferred st, None)
  | Some (Raised ex st) => (trace st ++ deferred st, Some ex)
  end.

(** [BaseLogger.fatal]: [this.log(FATAL, ...)], then [process.exit(1)] if
    [exitOnError]. The exit ends the process before the event loop runs
    anything deferred; an exception raised by [log] skips the exit. *)
Definition fatal (lg : Logger) (msg : string) (err : option ErrorInfo)
    (ctx : option nat) (now : string) (meta_copy : nat) : list event * option exn :=
  match log lg FATAL msg ctx err now meta_copy with
  | None => (if exitOnError lg then [Exited] else [], None)
  | Some (Normal st) =>
      if exitOnError lg then (trace st ++ [Exited], None)
      else (trace st ++ deferred st, None)
  | Some (Raised ex st) => (trace st ++ deferred st, Some ex)
  end.

(** How many times a middleware program calls [next]. *)
Fixpoint count_proceed (acts : list action) : nat :=
  match acts with
  | [] => 0
  | Proceed :: r => S (count_proceed r)
  | _ :: r => count_proceed r
  end.

(** Whether a middleware program reaches a call of [next] (before raising). *)
Fixpoint calls_next (acts : list action) : bool :=
  match acts with
  | [] => false
  | Mutate _ :: r => calls_next r
  | Proceed :: _ => true
  | Raise :: _ => false
  end.

(** The events of a chain run from cursor [i]: middleware [i] is invoked
    with the entry at that point; if it calls its continuation the chain goes
    on at [i + 1], otherwise it ends there; past the last middleware the
    fan-out runs. *)
Inductive chain (ms : list LogMiddleware) (ts : list LogTransport)
  : nat -> list event -> Prop :=
| chain_end : forall i e,
    i = List.length ms ->
    chain ms ts i (fst (writeToTransports ts e))
| chain_stop : forall i m e,
    nth_error ms i = Some m -> calls_next (m e) = false ->
    chain ms ts i [Invoked i e]
| chain_next : forall i m e T,
    nth_error ms i = Some m -> calls_next (m e) = true ->
    chain ms ts (S i) T ->
    chain ms ts i (Invoked i e :: T).

End Pipeline.

(** ** File sink: [src/unnamed/part_005] (FileTransport) *)
Module FileSink.
Local Open Scope string_scope.

(** The file system: the content of each existing file. *)
Definition fsys := string -> option string.

Definition fs_unlink (fs : fsys) (a : string) : fsys :=
  fun n => if String.eqb n a then None else fs n.

(** [fs.rename(a, b)]: POSIX rename, replacing [b] if it exists. *)
Definition fs_rename (fs : fsys) (a b : string) : fsys :=
  fun n => if String.eqb n b then fs a else if String.eqb n a then None else fs n.

(** The effect of a successful [fs.appendFile(a, s)]: creates [a] when it
    does not exist. Whether the call succeeds is decided by the operating
    system; see [resume_task]. *)
Definition fs_append (fs : fsys) (a s : string) : fsys :=
  fun n => if String.eqb n a
           then Some (match fs a with Some c => c | None => EmptyString end ++ s)
           else fs n.


(** [s.length]: the number of UTF-16 code units of the text whose UTF-8
    bytes are [s]. A byte below 128 is a character of its own; a
    continuation byte (128 to 191) adds nothing; a byte that starts a two- or
    three-byte sequence is one unit, one that starts a four-byte sequence
    (a character outside the Basic Multilingual Plane) a surrogate pair. *)
Fixpoint utf16_length (s : string) : Z :=
  match s with
  | EmptyString => 0%Z
  | String b r =>
      let n := nat_of_ascii b in
      ((if Nat.ltb n 128 then 1 else if Nat.ltb n 192 then 0
        else if Nat.ltb n 240 then 1 else 2) + utf16_length r)%Z
  end.

Record FileTransportConfig : Type := mkFileConfig {
  file_level : LogLevel;
  filename : string;
  maxSize : Z;
  maxFiles : Z;
  json : bool
}.

(** [currentSize], the only mutable field. *)
Record FileState : Type := mkFileState { currentSize : Z }.

(** [`${this.filename}.${i}`] *)
Definition rotated (c : FileTransportConfig) (i : Z) : string :=
  filename c ++ "." ++ number_text i.

(** One iteration of the loop of [rotate]: when [<filename>.i] exists, delete
    it if [i === maxFiles - 1], otherwise rename it to [<filename>.(i+1)]. *)
Definition rotate_step (c : FileTransportConfig) (i : Z) (fs : fsys) : fsys :=
  match fs (rotated c i) with
  | None => fs
  | Some _ =>
      if Z.eqb i (maxFiles c - 1) then fs_unlink fs (rotated c i)
      else fs_rename fs (rotated c i) (rotated c (i + 1))
  end.

(** [for (let i = this.maxFiles - 1; i >= 1; i--)], with [k] the current
    [i] as a natural number. *)
Fixpoint rotate_loop (c : FileTransportConfig) (k : nat) (fs : fsys) : fsys :=
  match k with
  | O => fs
  | S k' => rotate_loop c k' (rotate_step c (Z.of_nat k) fs)
  end.

(** [FileTransport.rotate] run with no other call in flight and every file
    operation carried out. *)
Definition rotate (c : FileTransportConfig) (fs : fsys) : FileState * fsys :=
  let fs1 := rotate_loop c (Z.to_nat (maxFiles c - 1)) fs in
  let fs2 := match fs1 (filename c) with
             | None => fs1
             | Some _ => fs_rename fs1 (filename c) (rotated c 1)
             end in
  (mkFileState 0, fs2).

Definition format (c : FileTransportConfig) (h : heap) (e : LogEntry) : outcome string :=
  if json c then Formatters.JsonFormatter_format h e
  else Formatters.SimpleFormatter_format h e.

(** ** Runs of [FileTransport.log] calls.

    [log] is an async method and the logger does not wait for one call to
    settle before it makes the next, so calls interleave at their [await]s.
    A call runs synchronously up to its first [await] ([call]); each later
    step ([resume]) is the continuation of one suspended call once the file
    operation it awaits has settled. The operation takes effect when the call
    resumes; the operating system decides whether it succeeds. Between two
    steps of one call, steps of other calls may run. *)

(** The [await] a suspended call waits at. *)
Inductive pc : Type :=
| AtAccess (i : Z)    (* rotate: await fs.access(`${filename}.${i}`) *)
| AtUnlink (i : Z)    (* rotate: await fs.unlink(oldFile) *)
| AtRename (i : Z)    (* rotate: await fs.rename(oldFile, newFile) *)
| AtMoveAccess        (* rotate: await fs.access(this.filename) *)
| AtMoveRename        (* rotate: await fs.rename(this.filename, `${this.filename}.1`) *)
| AtRotated           (* log: await this.rotate(), the rotation having returned *)
| AtAppend.           (* log: await fs.appendFile(this.filename, formatted, 'utf8') *)

(** A suspended call: where it waits, and its [formatted] line. *)
Record task : Type := mkTask { at_pc : pc; line : string }.

(** What the calls report: [console.error('Failed to write log to file:',
    error)], or the rejection of the promise [log] returned (a formatter
    exception). *)
Inductive report : Type :=
| AppendFailed
| Rejected (ex : exn).

(** A [FileTransport] object, the file system, the calls in flight and what
    they reported, the latest first. *)
Record World : Type := mkWorld {
  state : FileState;
  files : fsys;
  pending : list task;
  reports : list report
}.

(** [new FileTransport(config)]: [currentSize = 0], whatever the files. *)
Definition new_world (fs : fsys) : World := mkWorld (mkFileState 0) fs [] [].

(** The first [await] reached from iteration [i] of the loop of [rotate]:
    [fs.access(oldFile)] while [i >= 1], then [fs.access(this.filename)]. *)
Definition loop_at (i : Z) : pc :=
  if (1 <=? i)%Z then AtAccess i else AtMoveAccess.

(** The continuation of a call suspended at [at_pc t]. [ok] is whether the
    operating system carries the awaited operation out; one on a missing file
    fails whatever [ok] is. A failed access, unlink or rename is caught by the
    [try] around it in [rotate]; a failed append by the one in [log]. The
    result: the new [currentSize] and files, the next [await] of the call
    ([None] once it has returned), and what it reported. *)
Definition resume_task (c : FileTransportConfig) (ok : bool) (st : FileState)
    (fs : fsys) (t : task) : FileState * fsys * option pc * list report :=
  let present a := match fs a with Some _ => ok | None => false end in
  match at_pc t with
  | AtAccess i =>
      if present (rotated c i)
      then (st, fs, Some (if Z.eqb i (maxFiles c - 1) then AtUnlink i else AtRename i), [])
      else (st, fs, Some (loop_at (i - 1)), [])
  | AtUnlink i =>
      (st, (if present (rotated c i) then fs_unlink fs (rotated c i) else fs),
       Some (loop_at (i - 1)), [])
  | AtRename i =>
      (st, (if present (rotated c i) then fs_rename fs (rotated c i) (rotated c (i + 1)) else fs),
       Some (loop_at (i - 1)), [])
  | AtMoveAccess =>
      if present (filename c) then (st, fs, Some AtMoveRename, [])
      else (mkFileState 0, fs, Some AtRotated, [])
  | AtMoveRename =>
      (mkFileState 0,
       (if present (filename c) then fs_rename fs (filename c) (rotated c 1) else fs),
       Some AtRotated, [])
  | AtRotated => (st, fs, Some AtAppend, [])
  | AtAppend =>
      if ok
      then (mkFileState (currentSize st + utf16_length (line t)),
            fs_append fs (filename c) (line t), None, [])
      else (st, fs, None, [AppendFailed])
  end.

(** The synchronous part of [log(entry)]: the level check, [formatted], the
    size check against [currentSize] as it is now, and the first [await]. *)
Definition call (c : FileTransportConfig) (h : heap) (e : LogEntry) (w : World) : World :=
  if (lvl (level e) <? lvl (file_level c))%Z then w
  else match format c h e with
       | Throw ex => mkWorld (state w) (files w) (pending w) (Rejected ex :: reports w)
       | Ok s =>
           let formatted := s ++ Formatters.nl in
           let p := if (maxSize c <? currentSize (state w) + utf16_length formatted)%Z
                    then loop_at (maxFiles c - 1) else AtAppend in
           mkWorld (state w) (files w) (pending w ++ [mkTask p formatted]) (reports w)
       end.

(** The [k]-th call in flight resumes; [w] is unchanged when there is none. *)
Definition resume (c : FileTransportConfig) (k : nat) (ok : bool) (w : World) : World :=
  match nth_error (pending w) k with
  | None => w
  | Some t =>
      let '(st', fs', next, rs) := resume_task c ok (state w) (files w) t in
      let rest := match next with
                  | Some p => mkTask p (line t) :: skipn (S k) (pending w)
                  | None => skipn (S k) (pending w)
                  end in
      mkWorld st' fs' (firstn k (pending w) ++ rest) (rs ++ reports w)
  end.

(** A schedule: a [log] call, or the [k]-th call in flight resuming. *)
Inductive event : Type :=
| Call (e : LogEntry)
| Resume (k : nat) (ok : bool).


(** The calls in flight settle one after the other, the first first, every
    file operation being carried out. With one call in flight, this is a
    caller awaiting it before the next [log]. *)
Inductive settles (c : FileTransportConfig) : World -> World -> Prop :=
| settles_done w : pending w = [] -> settles c w w
| settles_step w w' : pending w <> [] -> settles c (resume c 0 true w) w' -> settles c w w'.

(** [for (const e of es) await transport.log(e)], every file operation
    being carried out. *)
Inductive settles_seq (c : FileTransportConfig) (h : heap) : list LogEntry -> World -> World -> Prop :=
| seq_nil w : settles_seq c h [] w w
| seq_cons e es w w1 w2 :
    settles c (call c h e w) w1 -> settles_seq c h es w1 w2 -> settles_seq c h (e :: es) w w2.


(** [FileTransport] as seen by the fan-out: [log] is an async function; past
    the level check it suspends at [await this.rotate()] or
    [await fs.appendFile(...)], and the append's errors are caught inside,
    so the returned promise is pending and later fulfils; a formatter
    exception rejects it. *)
Definition as_transport (c : FileTransportConfig) (h : heap) : Pipeline.LogTransport :=
  Pipeline.mkTransport "file" (Some (file_level c))
    (fun e => if (lvl (level e) <? lvl (file_level c))%Z then Pipeline.Returned
              else match format c h e with
                   | Throw _ => Pipeline.Pending false
                   | Ok _ => Pipeline.Pending true
                   end).

End FileSink.

(** ** Network sink: [src/src/transports/HttpTransport.ts] *)
Module HttpSink.
Local Open Scope string_scope.

(** One element of [payload]: the object literal built by [flush]. *)
Definition payload_item (e : LogEntry) : list (string * field) :=
  [("timestamp", FVal (VStr (timestamp e)));
   ("level", FVal (VStr (level_name (level e))));
   ("message", FVal (VStr (message e)));
   ("context", FVal (match context e with Some c => VRef c | None => VUndefined end));
   ("error", match error e with
             | Some er =>
                 FObj [("name", VStr (err_name er));
                       ("message", VStr (err_message er));
                       ("stack", match err_stack er with
                                 | Some s => VStr s
                                 | None => VUndefined
                                 end)]
             | None => FVal VUndefined
             end);
   ("meta", FVal (match meta e with Some m => VRef m | None => VUndefined end))].

Fixpoint items (h : heap) (es : list LogEntry) : outcome (list string) :=
  match es with
  | [] => Ok []
  | e :: es' =>
      match stringify_literal h (payload_item e) with
      | Throw ex => Throw ex
      | Ok t =>
          match items h es' with
          | Throw ex => Throw ex
          | Ok ts => Ok (t :: ts)
          end
      end
  end.

(** [JSON.stringify({ logs: payload })]. *)
Definition body (h : heap) (es : list LogEntry) : outcome string :=
  match items h es with
  | Throw ex => Throw ex
  | Ok ts => Ok ("{" ++ quote "logs" ++ ":[" ++ join "," ts ++ "]}")
  end.

Record HttpTransportConfig : Type := mkHttpConfig {
  http_level : LogLevel;
  batchSize : Z
}.

(** The mutable state: [buffer]; the [entries] of every [flush] whose
    [fetch] has not settled yet ([inflight], in the order the requests were
    sent); and the history of [fetch] calls with the entries each carried. *)
Record HttpState : Type := mkHttp {
  buffer : list LogEntry;
  inflight : list (list LogEntry);
  transmissions : list (list LogEntry)
}.

(** [flush] up to its first suspension: [this.buffer.splice(0)], build the
    payload, and call [fetch]. If [JSON.stringify] raises, the catch block
    runs at once and puts the entries back with [unshift]. *)
Definition flush (h : heap) (st : HttpState) : HttpState :=
  match buffer st with
  | [] => st
  | entries =>
      match body h entries with
      | Throw _ => mkHttp (entries ++ []) (inflight st) (transmissions st)
      | Ok _ => mkHttp [] (inflight st ++ [entries]) (transmissions st ++ [entries])
      end
  end.

(** [HttpTransport.log]. *)
Definition http_log (c : HttpTransportConfig) (h : heap) (st : HttpState)
    (e : LogEntry) : HttpState :=
  if (lvl (level e) <? lvl (http_level c))%Z then st
  else
    let st1 := mkHttp (buffer st ++ [e]) (inflight st) (transmissions st) in
    if (batchSize c <=? Z.of_nat (List.length (buffer st1)))%Z then flush h st1 else st1.

(** The timer callback of [startTimer]. *)
Definition tick (h : heap) (st : HttpState) : HttpState :=
  match buffer st with [] => st | _ => flush h st end.

Fixpoint remove_nth {A : Type} (j : nat) (l : list A) : list A :=
  match l, j with
  | [], _ => []
  | _ :: l', O => l'
  | x :: l', S j' => x :: remove_nth j' l'
  end.

(** The rest of [flush] for request [j]: on success nothing more happens;
    on a non-ok response or a rejected [fetch],
    [this.buffer.unshift(...entries)]. *)
Definition settle (st : HttpState) (j : nat) (success : bool) : HttpState :=
  match nth_error (inflight st) j with
  | None => st
  | Some entries =>
      let st1 := mkHttp (buffer st) (remove_nth j (inflight st)) (transmissions st) in
      if success then st1
      else mkHttp (entries ++ buffer st1) (inflight st1) (transmissions st1)
  end.

End HttpSink.

(** ** Memory sink: [src/src/transports/MemoryTransport.ts] *)
Module MemorySink.

(** The arrays of entries in the JavaScript heap, by identity, and the next
    fresh identity. *)
Record store : Type := mkStore {
  arrays : nat -> list LogEntry;
  next_id : nat
}.

Definition set_array (s : store) (a : nat) (xs : list LogEntry) : store :=
  mkStore (fun b => if Nat.eqb b a then xs else arrays s b) (next_id s).

Definition alloc (s : store) (xs : list LogEntry) : nat * store :=
  (next_id s, mkStore (fun b => if Nat.eqb b (next_id s) then xs else arrays s b)
                      (S (next_id s))).

Record MemoryTransport : Type := mkMemory {
  mem_level : LogLevel;
  logs : nat;        (* identity of the private [logs] array *)
  mem_maxSize : Z
}.

(** [new MemoryTransport(config)]: allocates the empty [logs] array. *)
Definition create (l : LogLevel) (max : Z) (s : store) : MemoryTransport * store :=
  let '(a, s1) := alloc s [] in (mkMemory l a max, s1).

(** [MemoryTransport.log]: push, then [shift] once when over [maxSize]. *)
Definition mem_log (m : MemoryTransport) (s : store) (e : LogEntry) : store :=
  if (lvl (level e) <? lvl (mem_level m))%Z then s
  else
    let xs := arrays s (logs m) ++ [e] in
    if (mem_maxSize m <? Z.of_nat (List.length xs))%Z
    then set_array s (logs m) (tl xs)
    else set_array s (logs m) xs.


Definition retained (m : MemoryTransport) (s : store) : list LogEntry :=
  arrays s (logs m).

(** The last [n] elements of a list, in order. *)
Definition lastn {A : Type} (n : nat) (l : list A) : list A :=
  skipn (List.length l - n) l.

Definition accepted (l : LogLevel) (e : LogEntry) : bool := (lvl l <=? lvl (level e))%Z.

End MemorySink.

(** ** Child loggers and the shared arrays: [src/src/loggers/Logger.ts],
    [BaseLogger.use], [addTransport], [removeTransport], [getTransports] *)
Module Child.
Import Pipeline.

(** The arrays of the JavaScript heap that loggers hold, by identity. *)
Record store : Type := mkStore {
  tarrays : nat -> list LogTransport;
  marrays : nat -> list LogMiddleware;
  next_id : nat
}.

(** A [Logger] object: its level and silent flag, and the identities of the
    arrays held by its [transports] and [middleware] fields. *)
Record LoggerObj : Type := mkLoggerObj {
  obj_level : LogLevel;
  obj_silent : bool;
  transports_arr : nat;
  middleware_arr : nat
}.

Definition upd {A : Type} (f : nat -> A) (a : nat) (v : A) : nat -> A :=
  fun b => if Nat.eqb b a then v else f b.

(** [addTransport]: [this.transports.push(transport)]. *)
Definition addTransport (lg : LoggerObj) (t : LogTransport) (s : store) : store :=
  mkStore (upd (tarrays s) (transports_arr lg) (tarrays s (transports_arr lg) ++ [t]))
          (marrays s) (next_id s).

(** [removeTransport]: [this.transports = this.transports.filter(...)], a
    fresh array assigned to this logger only. *)
Definition removeTransport (lg : LoggerObj) (n : string) (s : store)
  : LoggerObj * store :=
  let a := next_id s in
  (mkLoggerObj (obj_level lg) (obj_silent lg) a (middleware_arr lg),
   mkStore (upd (tarrays s) a
              (filter (fun t => negb (String.eqb (name t) n)) (tarrays s (transports_arr lg))))
           (marrays s) (S a)).

(** [getTransports]: a copy of the array's content. *)
Definition getTransports (lg : LoggerObj) (s : store) : list LogTransport :=
  tarrays s (transports_arr lg).

(** [use]: [this.middleware.push(middleware)]. *)
Definition use (lg : LoggerObj) (m : LogMiddleware) (s : store) : store :=
  mkStore (tarrays s)
          (upd (marrays s) (middleware_arr lg) (marrays s (middleware_arr lg) ++ [m]))
          (next_id s).

Definition getMiddleware (lg : LoggerObj) (s : store) : list LogMiddleware :=
  marrays s (middleware_arr lg).

(** [Logger.child]: the config passes [this.transports] itself; the
    constructor stores it ([this.transports = config.transports ?? []]) and
    initialises [middleware] to a fresh [[]]; then
    [childLogger['middleware'] = [...this.middleware]] stores a second fresh
    array holding a copy. *)
Definition child (lg : LoggerObj) (s : store) : LoggerObj * store :=
  let a0 := next_id s in
  let s1 := mkStore (tarrays s) (upd (marrays s) a0 []) (S a0) in
  let a1 := next_id s1 in
  let s2 := mkStore (tarrays s1) (upd (marrays s1) a1 (marrays s (middleware_arr lg)))
                    (S a1) in
  (mkLoggerObj (obj_level lg) (obj_silent lg) (transports_arr lg) a1, s2).

(** The arrays a logger holds were allocated before [next_id]. *)
Definition allocated (lg : LoggerObj) (s : store) : Prop :=
  transports_arr lg < next_id s /\ middleware_arr lg < next_id s.

End Child.

(** ** Concrete inputs used by the properties below *)
Module Samples.
Import Pipeline.
Local Open Scope string_scope.

Definition now0 : string := "2026-10-17T00:00:00.000Z".

(** A transport with no minimum level whose [log] returns normally. *)
Definition sink_all : LogTransport := mkTransport "memory" None (fun _ => Returned).

(** [(entry, next) => {}]: never calls [next]. *)
Definition drop_mw : LogMiddleware := fun _ => [].

(** [(entry, next) => { throw new Error() }]. *)
Definition raise_mw : LogMiddleware := fun _ => [Raise].

(** [(entry, next) => { next(); next(); }]. *)
Definition twice_mw : LogMiddleware := fun _ => [Proceed; Proceed].

Definition lg_drop : Logger := mkLogger TRACE [sink_all] 0 false false [drop_mw].
Definition lg_raise : Logger := mkLogger TRACE [sink_all] 0 false false [raise_mw].

Definition e0 : LogEntry := mkEntry INFO "x" now0 None None (Some 0).

Definition file_cfg : FileSink.FileTransportConfig :=
  FileSink.mkFileConfig INFO "app.log" 100 5 false.

Definition crash_err : ErrorInfo := mkError "Error" "crash" None.

(** [new Logger({ level: INFO, transports: [new FileTransport(...)],
    exitOnError })]. *)
Definition lg_file (exit : bool) : Logger :=
  mkLogger INFO [FileSink.as_transport file_cfg []] 0 exit false [].

(** The entry [fatal("crash", crash_err)] builds. *)
Definition e_fatal : LogEntry := mkEntry FATAL "crash" now0 None (Some crash_err) (Some 1).

(** The object of the circular-reference test of [logger.test.ts]:
    [circular = { name: 'test' }; circular.self = circular], at address 0;
    address 1 is the entry's [meta] copy. *)
Definition h_cyc : heap := [(0, [("name", VStr "test"); ("self", VRef 0)]); (1, [])].

Definition e_cyc : LogEntry := mkEntry INFO "Circular test" now0 (Some 0) None (Some 1).

(** A context holding a BigInt: [{ id: 1n }], at address 0. *)
Definition h_big : heap := [(0, [("id", VBigInt 1)])].

Definition e_big : LogEntry := mkEntry INFO "big" now0 (Some 0) None None.



Definition http_cfg3 : HttpSink.HttpTransportConfig := HttpSink.mkHttpConfig INFO 3.

Definition http_empty : HttpSink.HttpState := HttpSink.mkHttp [] [] [].

Definition child_store0 : Child.store :=
  Child.mkStore (fun _ => []) (fun _ => []) 2.

Definition parent0 : Child.LoggerObj := Child.mkLoggerObj INFO false 0 1.

(** A logger at [INFO] with one memory sink and no middleware. *)
Definition lg_plain : Logger := mkLogger INFO [sink_all] 0 false false [].

(** The line the file transport formats for [e0]. *)
Definition s_e0 : string :=
  match FileSink.format file_cfg [] e0 with Ok s => s | Throw _ => EmptyString end.




End Samples.

(** ** Plain JavaScript data built or walked by value: [src/src/factory.ts]
    ([sanitizeObject], the merged configurations) and [Logger.ts] (the
    contexts of [timeEnd] and [profileEnd]). These values are trees: no
    sharing and no cycles. *)
Module JsTree.
Local Set Warnings "-register-all".
Local Open Scope string_scope.

(** [JObj plain ps]: an object with its own enumerable string-keyed
    properties [ps] (distinct keys), in the order [Object.entries] lists
    them; [plain] is false for objects with another prototype (a [Date], a
    [Map], a class instance). [JProtoObj p ps]: an object literal whose
    prototype was then set to the value [p] (an object, an array, a function
    or [null]) by an assignment to its [__proto__] key. [JFun]: a function.
    A symbol or a BigInt behaves here as a number does. *)
Inductive jv : Type :=
| JUndef
| JNull
| JBool (b : bool)
| JNum (z : Z)
| JStr (s : string)
| JFun (id : nat)
| JArr (xs : list jv)
| JObj (plain : bool) (ps : list (string * jv))
| JProtoObj (p : jv) (ps : list (string * jv)).

(** Keys and field names are ASCII text; on it [toLowerCase] maps [A-Z] to
    [a-z] and leaves every other character unchanged. *)
Definition lower_ascii (c : ascii) : ascii :=
  let n := nat_of_ascii c in
  if (65 <=? n)%nat && (n <=? 90)%nat then ascii_of_nat (n + 32)%nat else c.

Fixpoint toLowerCase (s : string) : string :=
  match s with
  | EmptyString => EmptyString
  | String c r => String (lower_ascii c) (toLowerCase r)
  end.

Fixpoint prefixb (p s : string) : bool :=
  match p, s with
  | EmptyString, _ => true
  | String a p', String b s' => Ascii.eqb a b && prefixb p' s'
  | String _ _, EmptyString => false
  end.

(** [s.includes(t)]. *)
Fixpoint includes (s t : string) : bool :=
  prefixb t s || match s with
                 | EmptyString => false
                 | String _ s' => includes s' t
                 end.

(** [sensitiveFields.some(field => key.toLowerCase().includes(field.toLowerCase()))] *)
Definition sensitive (fs : list string) (key : string) : bool :=
  existsb (fun f => includes (toLowerCase key) (toLowerCase f)) fs.

Definition redacted_text : string := "[REDACTED]".

(** Whether the setter of [Object.prototype.__proto__] makes [v] the
    prototype: objects, arrays, functions and [null]; other values are
    ignored. *)
Definition proto_like (v : jv) : bool :=
  match v with
  | JNull | JFun _ | JArr _ | JObj _ _ | JProtoObj _ _ => true
  | _ => false
  end.

(** [sanitizeObject(obj, sensitiveFields)], the value it returns when it
    returns ([sanitize_raises] below says when it raises instead).
    Primitives and functions are returned as they are, arrays are mapped,
    and any other object is copied into a fresh object literal [sanitized]
    by [sanitized[key] = ...]. The assignment [sanitized['__proto__'] = v]
    runs the [Object.prototype] setter: it creates no own property, and
    makes [v] the prototype of [sanitized] when [v] is an object, an array,
    a function or [null]. *)
Fixpoint sanitizeObject (fs : list string) (v : jv) : jv :=
  let from_props :=
    fix props (ps : list (string * jv)) : option jv * list (string * jv) :=
      match ps with
      | [] => (None, [])
      | (k, x) :: r =>
          let y := if sensitive fs k then JStr redacted_text else sanitizeObject fs x in
          let '(pr, qs) := props r in
          if String.eqb k "__proto__"
          then (match pr with
                | Some _ => pr
                | None => if proto_like y then Some y else None
                end, qs)
          else (pr, (k, y) :: qs)
      end in
  match v with
  | JArr xs => JArr (map (sanitizeObject fs) xs)
  | JObj _ ps | JProtoObj _ ps =>
      let '(pr, qs) := from_props ps in
      match pr with
      | None => JObj true qs
      | Some p => JProtoObj p qs
      end
  | _ => v
  end.

(** Whether the prototype chain starting at [p], the prototype of
    [sanitized], makes the assignment of key [k] fail: it reaches a function
    before any own property [k], and the function, or [Function.prototype],
    holds [k] read-only or with a raising setter. [fun_blocks id k] says
    which keys function [id] blocks: [length], [name], [caller] and
    [arguments] for every function, [prototype] for a class, and any
    read-only property of its own. Objects and arrays that [sanitizeObject]
    builds hold writable data properties only. *)
Fixpoint blocks_key (fun_blocks : nat -> string -> bool) (p : jv) (k : string) : bool :=
  match p with
  | JFun id => fun_blocks id k
  | JProtoObj q ps => negb (existsb (String.eqb k) (map fst ps)) && blocks_key fun_blocks q k
  | _ => false
  end.

(** Whether [sanitizeObject] raises: in strict mode, an assignment the
    prototype chain refuses raises a TypeError, and an exception of a
    nested call propagates. [proto] is the current prototype of
    [sanitized], [JObj true []] standing for [Object.prototype]. *)
Fixpoint sanitize_raises (fs : list string) (fun_blocks : nat -> string -> bool) (v : jv) : bool :=
  let props_raise :=
    fix props (proto : jv) (ps : list (string * jv)) : bool :=
      match ps with
      | [] => false
      | (k, x) :: r =>
          (negb (sensitive fs k) && sanitize_raises fs fun_blocks x) ||
          (let y := if sensitive fs k then JStr redacted_text else sanitizeObject fs x in
           if String.eqb k "__proto__"
           then props (if proto_like y then y else proto) r
           else blocks_key fun_blocks proto k || props proto r)
      end in
  match v with
  | JArr xs => existsb (sanitize_raises fs fun_blocks) xs
  | JObj _ ps | JProtoObj _ ps => props_raise (JObj true []) ps
  | _ => false
  end.

(** [sanitizeObject] as JavaScript runs it. *)
Definition sanitizeObject_js (fs : list string) (fun_blocks : nat -> string -> bool) (v : jv)
  : outcome jv :=
  if sanitize_raises fs fun_blocks v then Throw TypeError_readonly else Ok (sanitizeObject fs v).

(** The keys every function blocks: its own read-only [length] and [name],
    and [caller] and [arguments], whose setters on [Function.prototype]
    raise. *)
Definition function_blocks (id : nat) (k : string) : bool :=
  existsb (String.eqb k) ["length"; "name"; "caller"; "arguments"].

(** The default of [middleware.sanitize]. *)
Definition default_sensitive : list string := ["password"; "token"; "secret"].

(** A value in which every property whose key is sensitive holds
    ["[REDACTED]"], at every depth, prototypes set by [__proto__]
    included, and no object has an own [__proto__] property. *)
Fixpoint redacted (fs : list string) (v : jv) : Prop :=
  let allp :=
    fix allp (ps : list (string * jv)) : Prop :=
      match ps with
      | [] => True
      | (k, x) :: r =>
          k <> "__proto__" /\
          (if sensitive fs k then x = JStr redacted_text else redacted fs x) /\ allp r
      end in
  match v with
  | JArr xs =>
      (fix all (xs : list jv) : Prop :=
         match xs with [] => True | x :: r => redacted fs x /\ all r end) xs
  | JObj _ ps => allp ps
  | JProtoObj p ps => redacted fs p /\ allp ps
  | _ => True
  end.

(** A value whose objects are all plain and have no [__proto__] key. *)
Fixpoint plain_data (v : jv) : bool :=
  match v with
  | JArr xs => forallb plain_data xs
  | JObj plain ps =>
      plain && forallb (fun kx => negb (String.eqb (fst kx) "__proto__") && plain_data (snd kx)) ps
  | JProtoObj _ _ => false
  | _ => true
  end.

(** A value with no [__proto__] key in any of its objects. *)
Fixpoint no_proto_key (v : jv) : bool :=
  match v with
  | JArr xs => forallb no_proto_key xs
  | JObj _ ps | JProtoObj _ ps =>
      forallb (fun kx => negb (String.eqb (fst kx) "__proto__") && no_proto_key (snd kx)) ps
  | _ => true
  end.

End JsTree.

Import JsTree.

(** ** A JavaScript [Map] with string keys: insertion-ordered; [set] on a
    present key replaces the value in place. *)
Module JsMap.

Fixpoint get {V : Type} (m : list (string * V)) (k : string) : option V :=
  match m with
  | [] => None
  | (k', v) :: r => if String.eqb k k' then Some v else get r k
  end.

Fixpoint set {V : Type} (m : list (string * V)) (k : string) (v : V) : list (string * V) :=
  match m with
  | [] => [(k, v)]
  | (k', v') :: r => if String.eqb k k' then (k', v) :: r else (k', v') :: set r k v
  end.

Definition delete {V : Type} (m : list (string * V)) (k : string) : list (string * V) :=
  filter (fun kv => negb (String.eqb (fst kv) k)) m.

Definition keys {V : Type} (m : list (string * V)) : list string := map fst m.

End JsMap.

(** ** Object spread [{ ...a, ...b }] on plain objects: each own property of
    [b] is defined on the result in turn (an existing key keeps its place).
    Properties below are stated through [get], so they do not depend on the
    key order. *)
Module Spread.

Definition assign (acc ps : list (string * jv)) : list (string * jv) :=
  fold_left (fun o kv => JsMap.set o (fst kv) (snd kv)) ps acc.

End Spread.

(** ** Timers and profiles of [Logger]: [src/src/loggers/Logger.ts] *)
Module Perf.
Local Open Scope string_scope.

(** A call of [this.log] made by one of these methods, through [warn],
    [info] or [debug]. *)
Record log_call : Type := mkCall {
  call_level : LogLevel;
  call_message : string;
  call_context : option jv
}.

(** The [timers] and [profiles] maps, label to [Date.now()] at the start. *)
Record PerfState : Type := mkPerf {
  timers : list (string * Z);
  profiles : list (string * Z)
}.

(** [time(label)]; [now] is [Date.now()]. *)
Definition time (st : PerfState) (label : string) (now : Z) : PerfState :=
  mkPerf (JsMap.set (timers st) label now) (profiles st).

(** [timeEnd(label)]. [!startTime] holds for a missing label and for a
    start time of [0]. *)
Definition timeEnd (st : PerfState) (label : string) (now : Z) : PerfState * log_call :=
  let not_started := (st, mkCall WARN ("Timer '" ++ label ++ "' was not started") None) in
  match JsMap.get (timers st) label with
  | None => not_started
  | Some startTime =>
      if Z.eqb startTime 0 then not_started
      else
        let duration := (now - startTime)%Z in
        (mkPerf (JsMap.delete (timers st) label) (profiles st),
         mkCall INFO (label ++ ": " ++ number_text duration ++ "ms")
           (Some (JObj true [("performance",
                              JObj true [("label", JStr label); ("duration", JNum duration)])])))
  end.

(** [profile(label)]. *)
Definition profile (st : PerfState) (label : string) (now : Z) : PerfState * log_call :=
  (mkPerf (timers st) (JsMap.set (profiles st) label now),
   mkCall DEBUG ("Profile started: " ++ label) None).

(** [profileEnd(label)]; [iso t] is [new Date(t).toISOString()] and
    [end_iso] the text of the second [new Date()]. *)
Definition profileEnd (st : PerfState) (label : string) (now : Z) (iso : Z -> string)
    (end_iso : string) : PerfState * log_call :=
  let not_started := (st, mkCall WARN ("Profile '" ++ label ++ "' was not started") None) in
  match JsMap.get (profiles st) label with
  | None => not_started
  | Some startTime =>
      if Z.eqb startTime 0 then not_started
      else
        let duration := (now - startTime)%Z in
        (mkPerf (timers st) (JsMap.delete (profiles st) label),
         mkCall INFO ("Profile completed: " ++ label)
           (Some (JObj true [("profile",
                              JObj true [("label", JStr label); ("duration", JNum duration);
                                         ("startTime", JStr (iso startTime));
                                         ("endTime", JStr end_iso)])])))
  end.

(** [getStats()]: level name, transport names, active timer and profile
    labels. *)
Definition getStats (l : LogLevel) (ts : list Pipeline.LogTransport) (st : PerfState)
  : string * list string * list string * list string :=
  (level_name l, map Pipeline.name ts, JsMap.keys (timers st), JsMap.keys (profiles st)).

End Perf.

(** ** The exported [Logger]: [src/src/loggers/index.ts]. Its [log] puts
    [this.defaultMeta] itself (not a copy) in the entry, and its
    [writeToTransports] calls [transport.log(entry)] on every transport,
    with no check of [transport.level]. *)
Module Logger2.
Import Pipeline.

Definition deliver_any (i : nat) (t : LogTransport) (e : LogEntry) : list event * list event :=
  match transport_log t e with
  | Returned => ([Delivered i (name t) e], [])
  | RaisedSync => ([Delivered i (name t) e; Reported i], [])
  | Pending true => ([Delivered i (name t) e], [Completed i e])
  | Pending false => ([Delivered i (name t) e], [Reported i])
  end.

Fixpoint fan_all (i : nat) (ts : list LogTransport) (e : LogEntry) : list event * list event :=
  match ts with
  | [] => ([], [])
  | t :: ts' =>
      let '(now1, later1) := deliver_any i t e in
      let '(now2, later2) := fan_all (S i) ts' e in
      (now1 ++ now2, later1 ++ later2)
  end.

Definition writeToTransports (ts : list LogTransport) (e : LogEntry) : list event * list event :=
  let '(now, later) := fan_all 0 ts e in (FanOut e :: now, later).

Definition dispatch (ts : list LogTransport) (st : run_state) : run_state :=
  let '(now, later) := writeToTransports ts (entry st) in
  mkRun (index st) (entry st) (trace st ++ now) (deferred st ++ later).

(** [next] of its [processEntry], the same code as [BaseLogger]'s. *)
Fixpoint next (fuel : nat) (ms : list LogMiddleware) (ts : list LogTransport)
    (st : run_state) : res :=
  match nth_error ms (index st) with
  | None => Normal (dispatch ts st)
  | Some m =>
      match fuel with
      | O => Raised OutOfFuel st
      | S f =>
          let st1 := mkRun (S (index st)) (entry st)
                       (trace st ++ [Invoked (index st) (entry st)]) (deferred st) in
          run_actions (next f ms ts) (m (entry st)) st1
      end
  end.

Definition processEntry (ms : list LogMiddleware) (ts : list LogTransport) (e : LogEntry) : res :=
  next (List.length ms) ms ts (mkRun 0 e [] []).

(** [Logger.log]: [meta: this.defaultMeta]. *)
Definition log (lg : Logger) (l : LogLevel) (msg : string) (ctx : option nat)
    (err : option ErrorInfo) (now : string) : option res :=
  if silent lg || (lvl l <? lvl (logger_level lg))%Z then None
  else Some (processEntry (middleware lg) (transports lg)
               (mkEntry l msg now ctx err (Some (defaultMeta lg)))).

End Logger2.

(** ** [close()] of both loggers: [src/unnamed/part_001] and
    [src/src/loggers/index.ts] *)
Module Closing.
Import Pipeline.

(** A transport with its optional [close] method, and what a call of it
    does (as [delivery] does for [log]). *)
Record ClosableTransport : Type := mkClosable {
  ctransport : LogTransport;
  cclose : option delivery
}.

(** [CloseCalled i n]: [close()] of the transport at position [i] is called;
    [CloseReported i]: the [console.error] of its catch block;
    [CloseSettled i]: its promise fulfilled. *)
Inductive cevent : Type :=
| CloseCalled (i : nat) (n : string)
| CloseSettled (i : nat)
| CloseReported (i : nat).

Definition close_one (i : nat) (t : ClosableTransport) : list cevent * list cevent :=
  let n := name (ctransport t) in
  match cclose t with
  | None => ([], [])
  | Some Returned => ([CloseCalled i n], [])
  | Some RaisedSync => ([CloseCalled i n; CloseReported i], [])
  | Some (Pending true) => ([CloseCalled i n], [CloseSettled i])
  | Some (Pending false) => ([CloseCalled i n], [CloseReported i])
  end.

(** [this.transports.map(async (transport) => ...)], then
    [await Promise.all(promises)]: the events before the first suspension and
    after it. Each callback catches its own failure, so the returned promise
    always fulfils. *)
Fixpoint close_all (i : nat) (ts : list ClosableTransport) : list cevent * list cevent :=
  match ts with
  | [] => ([], [])
  | t :: ts' =>
      let '(now1, later1) := close_one i t in
      let '(now2, later2) := close_all (S i) ts' in
      (now1 ++ now2, later1 ++ later2)
  end.

Definition close (ts : list ClosableTransport) : list cevent :=
  let '(now, later) := close_all 0 ts in now ++ later.

End Closing.

(** ** More of the memory and network sinks *)
Module MemoryOps.
Import MemorySink.

(** [clear()]: [this.logs = []], a fresh array; [close()] calls it. *)
Definition clear (m : MemoryTransport) (s : store) : MemoryTransport * store :=
  let '(a, s1) := alloc s [] in (mkMemory (mem_level m) a (mem_maxSize m), s1).

Definition close := clear.

End MemoryOps.

Module HttpOps.
Import HttpSink.

(** [close()]: [clearInterval(this.timer)], so [tick] never runs again,
    then [await this.flush()]. *)
Definition close (h : heap) (st : HttpState) : HttpState := flush h st.

(** The entries not yet delivered: buffered or carried by a request that
    has not settled. *)
Definition pending (st : HttpState) : list LogEntry := buffer st ++ List.concat (inflight st).

End HttpOps.

(** ** Writing several entries with one file transport *)
Module FileOps.
Import FileSink.

(** The lines [formatted] of a sequence of entries. *)
Fixpoint lines (c : FileTransportConfig) (h : heap) (es : list LogEntry) : outcome (list string) :=
  match es with
  | [] => Ok []
  | e :: es' =>
      match format c h e with
      | Throw ex => Throw ex
      | Ok s =>
          match lines c h es' with
          | Throw ex => Throw ex
          | Ok ls => Ok ((s ++ Formatters.nl)%string :: ls)
          end
      end
  end.

(** The sum of the [formatted.length] of the lines. *)
Fixpoint total_units (ls : list string) : Z :=
  match ls with
  | [] => 0%Z
  | s :: r => (utf16_length s + total_units r)%Z
  end.

Fixpoint concat_all (ls : list string) : string :=
  match ls with
  | [] => EmptyString
  | s :: r => (s ++ concat_all r)%string
  end.

(** Whether a text contains no line feed. *)
Fixpoint no_newline (s : string) : bool :=
  match s with
  | EmptyString => true
  | String c r => negb (Nat.eqb (nat_of_ascii c) 10) && no_newline r
  end.

End FileOps.

(** ** [ConsoleFormatter]: [src/src/formatters/ConsoleFormatter.ts].
    [paint c s] is the text of the [chalk] style [c] applied to [s] and
    [local_time t] the [dayjs(...).format('YYYY-MM-DD HH:mm:ss.SSS')] text
    of the timestamp [t]; both come from the libraries. *)
Module ConsoleFmt.
Local Open Scope string_scope.

Inductive color : Type := Gray | Blue | Green | Yellow | Red | BgRedWhite | Cyan | Magenta.

Definition level_color (l : LogLevel) : color :=
  match l with
  | TRACE => Gray | DEBUG => Blue | INFO => Green | WARN => Yellow
  | ERROR => Red | FATAL => BgRedWhite
  end.

Fixpoint spaces (n : nat) : string :=
  match n with O => EmptyString | S n' => String " " (spaces n') end.

(** [s.padEnd(5)]. *)
Definition padEnd5 (s : string) : string := s ++ spaces (5 - String.length s).

Section Fmt.
Variable colors : bool.
Variable showTimestamp : bool.
Variable paint : color -> string -> string.
Variable local_time : string -> string.

Definition style (c : color) (s : string) : string := if colors then paint c s else s.

Definition formatLevel (l : LogLevel) : string :=
  style (level_color l) ("[" ++ padEnd5 (level_name l) ++ "]").

(** [formatValue]: a string in double quotes (not escaped); an object,
    including [null], through [JSON.stringify]; anything else through
    [String(value)], which writes a BigInt's digits. *)
Definition formatValue (h : heap) (v : value) : outcome string :=
  match v with
  | VStr s => Ok (dquote ++ s ++ dquote)
  | VNull => Ok "null"
  | VRef a =>
      match stringify h (VRef a) with
      | Throw ex => Throw ex
      | Ok (Some t) => Ok t
      | Ok None => Ok "undefined"
      end
  | VToJSONRaises => Throw CallbackFailure
  | VGetterRaises => Throw CallbackFailure
  | VUndefined => Ok "undefined"
  | VBool true => Ok "true"
  | VBool false => Ok "false"
  | VNum z => Ok (number_text z)
  | VBigInt z => Ok (number_text z)
  end.

(** [Object.entries(o).map(([key, value]) => `${key}=${this.formatValue(value)}`)] *)
Fixpoint entry_texts (h : heap) (ps : obj) : outcome (list string) :=
  match ps with
  | [] => Ok []
  | (k, v) :: r =>
      match formatValue h v with
      | Throw ex => Throw ex
      | Ok t =>
          match entry_texts h r with
          | Throw ex => Throw ex
          | Ok ts => Ok ((k ++ "=" ++ t) :: ts)
          end
      end
  end.

Definition obj_at (h : heap) (a : nat) : obj :=
  match lookup h a with Some o => o | None => [] end.

Definition is_getter_raising (p : string * value) : bool :=
  match snd p with VGetterRaises => true | _ => false end.

(** [Object.entries(o)] reads every property first: a raising getter
    raises before any value is formatted. *)
Definition entries_texts (h : heap) (ps : obj) : outcome (list string) :=
  if existsb is_getter_raising ps then Throw CallbackFailure else entry_texts h ps.

Definition formatContext (h : heap) (c : nat) : outcome string :=
  match obj_at h c with
  | [] => Ok ""
  | ps =>
      match entries_texts h ps with
      | Throw ex => Throw ex
      | Ok ts => Ok (style Cyan ("{" ++ join " " ts ++ "}"))
      end
  end.

Definition formatError (er : ErrorInfo) : string :=
  style Red (err_name er ++ ": " ++ err_message er).

(** [formatMeta]: no check for an empty object. *)
Definition formatMeta (h : heap) (m : nat) : outcome string :=
  match entries_texts h (obj_at h m) with
  | Throw ex => Throw ex
  | Ok ts => Ok (style Magenta ("[" ++ join " " ts ++ "]"))
  end.

Definition nonempty (s : string) : bool :=
  match s with EmptyString => false | _ => true end.

(** [format(entry)]: the parts, those that are non-empty ([filter(Boolean)])
    joined by single spaces. *)
Definition format (h : heap) (e : LogEntry) : outcome string :=
  let ts := if showTimestamp then local_time (timestamp e) else "" in
  let lv := formatLevel (level e) in
  match (match context e with Some c => formatContext h c | None => Ok "" end) with
  | Throw ex => Throw ex
  | Ok ctx =>
      let er := match error e with Some x => formatError x | None => "" end in
      match (match meta e with Some m => formatMeta h m | None => Ok "" end) with
      | Throw ex => Throw ex
      | Ok mt => Ok (join " " (filter nonempty [ts; lv; message e; ctx; er; mt]))
      end
  end.

End Fmt.

End ConsoleFmt.

(** ** [LoggerFactory]: [src/src/factory.ts] *)
Module Factory.
Local Open Scope string_scope.

(** A key of a [Partial<LoggerConfig>] object: absent, present with the
    value [undefined], or present with a value. *)
Inductive prop (A : Type) : Type :=
| Absent
| Undef
| Def (a : A).
Arguments Absent {A}.
Arguments Undef {A}.
Arguments Def {A} a.

(** [{ ...base, ...over }] for one key. *)
Definition spread_prop {A : Type} (base over : prop A) : prop A :=
  match over with Absent => base | _ => over end.

(** [p ?? d]. *)
Definition or_default {A : Type} (p : prop A) (d : A) : A :=
  match p with Def a => a | _ => d end.

(** A transport the factory constructs: [new ConsoleTransport({...})] or
    [new FileTransport({...})], with the keys of the literal. *)
Inductive transport_desc : Type :=
| ConsoleDesc (level : LogLevel) (colors : bool) (timestamp : prop bool) (json : prop bool)
| FileDesc (c : FileSink.FileTransportConfig).

Record Config : Type := mkConfig {
  c_level : prop LogLevel;
  c_transports : prop (list transport_desc);
  c_defaultMeta : prop (list (string * jv));
  c_exitOnError : prop bool;
  c_silent : prop bool
}.

Definition empty_config : Config := mkConfig Absent Absent Absent Absent Absent.

(** [{ ...x }] of a [defaultMeta] value that may be missing. *)
Definition meta_props (p : prop (list (string * jv))) : list (string * jv) :=
  match p with Def o => o | _ => [] end.

(** [mergedConfig] of [create(name, config)]. *)
Definition merge (dflt : Config) (config : option Config) (name : string) : Config :=
  let over := match config with Some c => c | None => empty_config end in
  mkConfig (spread_prop (c_level dflt) (c_level over))
           (spread_prop (c_transports dflt) (c_transports over))
           (Def (JsMap.set (Spread.assign (Spread.assign [] (meta_props (c_defaultMeta dflt)))
                                          (meta_props (c_defaultMeta over)))
                           "logger" (JStr name)))
           (spread_prop (c_exitOnError dflt) (c_exitOnError over))
           (spread_prop (c_silent dflt) (c_silent over)).

(** The fields [new Logger(config)] sets. *)
Record LoggerSpec : Type := mkSpec {
  s_level : LogLevel;
  s_transports : list transport_desc;
  s_defaultMeta : list (string * jv);
  s_exitOnError : bool;
  s_silent : bool
}.

Definition construct (c : Config) : LoggerSpec :=
  mkSpec (or_default (c_level c) INFO) (or_default (c_transports c) [])
         (or_default (c_defaultMeta c) []) (or_default (c_exitOnError c) false)
         (or_default (c_silent c) false).

(** A constructed logger as the pipeline runs it: [realize] gives the
    transport object of each description and [meta_addr] is the address of
    its [defaultMeta] object; [middleware] starts empty. *)
Definition instantiate (realize : transport_desc -> Pipeline.LogTransport) (meta_addr : nat)
    (s : LoggerSpec) : Pipeline.Logger :=
  Pipeline.mkLogger (s_level s) (map realize (s_transports s)) meta_addr
                    (s_exitOnError s) (s_silent s) [].

(** The factory: its [defaultConfig], the [loggers] map (name to logger
    identity) and every logger it has constructed, by identity. *)
Record LoggerFactory : Type := mkFactory {
  defaultConfig : Config;
  loggers : list (string * nat);
  created : list LoggerSpec
}.

Definition create (f : LoggerFactory) (name : string) (config : option Config)
  : nat * LoggerFactory :=
  let id := List.length (created f) in
  (id, mkFactory (defaultConfig f) (JsMap.set (loggers f) name id)
                 (created f ++ [construct (merge (defaultConfig f) config name)])).

Definition get (f : LoggerFactory) (name : string) (config : option Config)
  : nat * LoggerFactory :=
  match JsMap.get (loggers f) name with
  | Some id => (id, f)
  | None => create f name config
  end.

Definition createDevelopmentLogger (f : LoggerFactory) (name : string) : nat * LoggerFactory :=
  create f name (Some (mkConfig (Def DEBUG) (Def [ConsoleDesc DEBUG true (Def true) Absent])
                                Absent Absent Absent)).

Definition createProductionLogger (f : LoggerFactory) (name : string) (logFile : option string)
  : nat * LoggerFactory :=
  let console := ConsoleDesc INFO false Absent (Def true) in
  let ts := match logFile with
            | Some file =>
                if String.eqb file "" then [console]
                else [console; FileDesc (FileSink.mkFileConfig INFO file (50 * 1024 * 1024) 10 true)]
            | None => [console]
            end in
  create f name (Some (mkConfig (Def INFO) (Def ts) Absent (Def true) Absent)).

Definition createTestLogger (f : LoggerFactory) (name : string) : nat * LoggerFactory :=
  create f name (Some (mkConfig (Def TRACE) (Def []) Absent Absent (Def true))).

(** [closeAll()]: [close()] of every registered logger, in the map's
    order, then [this.loggers.clear()]. *)
Definition closeAll (f : LoggerFactory) : list nat * LoggerFactory :=
  (map snd (loggers f), mkFactory (defaultConfig f) [] (created f)).

Definition getLoggerNames (f : LoggerFactory) : list string := JsMap.keys (loggers f).

(** The logger with identity [id]. *)
Definition logger_at (f : LoggerFactory) (id : nat) : option LoggerSpec := nth_error (created f) id.

(** [createLogger(name, env)]: [environment] is
    [env ?? process.env.NODE_ENV ?? 'development'] and the factory is the
    singleton. *)
Definition environment (env node_env : option string) : string :=
  match env with
  | Some e => e
  | None => match node_env with Some e => e | None => "development" end
  end.

Definition createLogger (f : LoggerFactory) (name : string) (env node_env : option string)
  : nat * LoggerFactory :=
  let e := environment env node_env in
  if String.eqb e "production" then createProductionLogger f name (Some "./logs/app.log")
  else if String.eqb e "test" then createTestLogger f name
  else createDevelopmentLogger f name.

(** The [loggers] map has one entry per name, every registered identity
    names a constructed logger, and no logger is registered under two names. *)
Definition well_formed (f : LoggerFactory) : Prop :=
  NoDup (JsMap.keys (loggers f)) /\
  (forall n id, In (n, id) (loggers f) -> id < List.length (created f)) /\
  (forall n1 n2 id, In (n1, id) (loggers f) -> In (n2, id) (loggers f) -> n1 = n2).

End Factory.

(** ** Middleware of the [middleware] collection of [src/src/factory.ts]:
    [requestId], [timestamp], [sanitize] and [caller] change the entry (or
    the objects it refers to) and then call [next()] once, unconditionally. *)
Module Builtins.
Import Pipeline.

Definition pass_through (f : LogEntry -> LogEntry) : LogMiddleware := fun _ => [Mutate f; Proceed].

Fixpoint apply_all (fs : list (LogEntry -> LogEntry)) (e : LogEntry) : LogEntry :=
  match fs with [] => e | f :: r => apply_all r (f e) end.

(** The invocation events of middleware [i, i+1, ...], each seeing the entry
    as the ones before it left it. *)
Fixpoint invocations (i : nat) (fs : list (LogEntry -> LogEntry)) (e : LogEntry) : list event :=
  match fs with [] => [] | f :: r => Invoked i e :: invocations (S i) r (f e) end.

End Builtins.

(** ** [Logger.child]'s metadata: [{ ...this.defaultMeta, ...meta }] *)
Module ChildMeta.
Definition child_meta (parent meta : list (string * jv)) : list (string * jv) :=
  Spread.assign (Spread.assign [] parent) meta.
End ChildMeta.

(** ** Derived notions used to state properties of the code *)

Module Views.
Import JsTree.
Local Open Scope string_scope.

(** Induction on values, with the hypothesis for the elements of arrays
    and the property values of objects. *)
Section jv_ind_nested.
Variable P : jv -> Prop.
Hypothesis H_undef : P JUndef.
Hypothesis H_null : P JNull.
Hypothesis H_bool : forall b, P (JBool b).
Hypothesis H_num : forall z, P (JNum z).
Hypothesis H_str : forall s, P (JStr s).
Hypothesis H_fun : forall n, P (JFun n).
Hypothesis H_arr : forall xs, Forall P xs -> P (JArr xs).
Hypothesis H_obj : forall b ps, Forall (fun kx => P (snd kx)) ps -> P (JObj b ps).
Hypothesis H_proto : forall p ps, P p -> Forall (fun kx => P (snd kx)) ps -> P (JProtoObj p ps).

Fixpoint jv_ind_nested (v : jv) : P v :=
  match v with
  | JUndef => H_undef
  | JNull => H_null
  | JBool b => H_bool b
  | JNum z => H_num z
  | JStr s => H_str s
  | JFun n => H_fun n
  | JArr xs =>
      H_arr xs
        ((fix go (xs : list jv) : Forall P xs :=
            match xs with
            | [] => Forall_nil _
            | x :: r => @Forall_cons _ P x r (jv_ind_nested x) (go r)
            end) xs)
  | JObj b ps =>
      H_obj b ps
        ((fix go (ps : list (string * jv)) : Forall (fun kx => P (snd kx)) ps :=
            match ps with
            | [] => Forall_nil _
            | (k, x) :: r => @Forall_cons _ (fun kx => P (snd kx)) (k, x) r (jv_ind_nested x) (go r)
            end) ps)
  | JProtoObj p ps =>
      H_proto p ps (jv_ind_nested p)
        ((fix go (ps : list (string * jv)) : Forall (fun kx => P (snd kx)) ps :=
            match ps with
            | [] => Forall_nil _
            | (k, x) :: r => @Forall_cons _ (fun kx => P (snd kx)) (k, x) r (jv_ind_nested x) (go r)
            end) ps)
  end.
End jv_ind_nested.

(** The property loop of [sanitizeObject], as a function of its own: the
    prototype set through [__proto__], if any, and the own properties. *)
Fixpoint sanitize_props (fs : list string) (ps : list (string * jv)) : option jv * list (string * jv) :=
  match ps with
  | [] => (None, [])
  | (k, x) :: r =>
      let y := if sensitive fs k then JStr redacted_text else sanitizeObject fs x in
      let '(pr, qs) := sanitize_props fs r in
      if String.eqb k "__proto__"
      then (match pr with
            | Some _ => pr
            | None => if proto_like y then Some y else None
            end, qs)
      else (pr, (k, y) :: qs)
  end.

(** The object the loop leaves in [sanitized]. *)
Definition of_props (r : option jv * list (string * jv)) : jv :=
  match r with
  | (None, qs) => JObj true qs
  | (Some p, qs) => JProtoObj p qs
  end.

(** No request of an [HttpState] carries an empty batch. *)
Definition no_empty_batch (st : HttpSink.HttpState) : Prop :=
  Forall (fun b => b <> []) (HttpSink.inflight st) /\ Forall (fun b => b <> []) (HttpSink.transmissions st).

(** A rendered text, when there is one, holds no line break. *)
Definition text_one_line (o : outcome (option string)) : Prop :=
  match o with Ok (Some t) => FileOps.no_newline t = true | _ => True end.

(** The text of a file, the empty text when it does not exist. *)
Definition content (fs : FileSink.fsys) (a : string) : string :=
  match fs a with Some t => t | None => EmptyString end.

(** The index of the transport a close event belongs to. *)
Definition cidx (ev : Closing.cevent) : nat :=
  match ev with Closing.CloseCalled i _ => i | Closing.CloseSettled i => i | Closing.CloseReported i => i end.

(** The events of [close], in one list. *)
Definition events (p : list Closing.cevent * list Closing.cevent) : list Closing.cevent := fst p ++ snd p.

End Views.

(** * Properties *)

Module PipelineFacts.
Import Pipeline.

Lemma dispatch_trace ts st :
  trace (dispatch ts st) = trace st ++ fst (writeToTransports ts (entry st)).
Proof. unfold dispatch. destruct (writeToTransports ts (entry st)); reflexivity. Qed.

Lemma next_eq f ms ts st :
  next f ms ts st =
  match nth_error ms (index st) with
  | None => Normal (dispatch ts st)
  | Some m =>
      match f with
      | O => Raised OutOfFuel st
      | S f' =>
          run_actions (next f' ms ts) (m (entry st))
            (mkRun (S (index st)) (entry st)
               (trace st ++ [Invoked (index st) (entry st)]) (deferred st))
      end
  end.
Proof. destruct f; reflexivity. Qed.

Lemma fan_out_cons j t ts e :
  fan_out j (t :: ts) e =
  (fst (deliver_one j t e) ++ fst (fan_out (S j) ts e),
   snd (deliver_one j t e) ++ snd (fan_out (S j) ts e)).
Proof.
  simpl. destruct (deliver_one j t e), (fan_out (S j) ts e). reflexivity.
Qed.

Lemma writeToTransports_eq ts e :
  writeToTransports ts e = (FanOut e :: fst (fan_out 0 ts e), snd (fan_out 0 ts e)).
Proof. unfold writeToTransports. destruct (fan_out 0 ts e). reflexivity. Qed.

Lemma deliver_one_delivered j t e i n e' :
  In (Delivered i n e') (fst (deliver_one j t e)) <->
  i = j /\ n = name t /\ e' = e /\ passes_transport t e = true.
Proof.
  unfold deliver_one. destruct (passes_transport t e) eqn:P.
  - destruct (transport_log t e) as [| |[]]; simpl;
      split; intros H; [destruct H as [H|H]; [inversion H; auto|] | ..];
      try (destruct H as [-> [-> [-> _]]]; auto); try contradiction;
      try (destruct H as [H|H]; [inversion H; auto|]); try contradiction;
      try (destruct H as [H|H]; discriminate || contradiction).
  - simpl. split; [contradiction | intros (_ & _ & _ & H); discriminate].
Qed.

Lemma deliver_one_later_no_delivered j t e i n e' :
  ~ In (Delivered i n e') (snd (deliver_one j t e)).
Proof.
  unfold deliver_one. destruct (passes_transport t e); [|simpl; tauto].
  destruct (transport_log t e) as [| |[]]; simpl; intros H;
    repeat (destruct H as [H|H]; [discriminate|]); contradiction.
Qed.

Lemma fan_out_later_no_delivered ts j e i n e' :
  ~ In (Delivered i n e') (snd (fan_out j ts e)).
Proof.
  revert j. induction ts as [|t ts IH]; intros j; [simpl; tauto|].
  rewrite fan_out_cons. simpl. rewrite in_app_iff. intros [H|H].
  - exact (deliver_one_later_no_delivered _ _ _ _ _ _ H).
  - exact (IH _ H).
Qed.

Lemma fan_out_delivered ts j e i n e' :
  In (Delivered i n e') (fst (fan_out j ts e)) <->
  j <= i /\ exists t, nth_error ts (i - j) = Some t /\ n = name t /\ e' = e /\
                      passes_transport t e = true.
Proof.
  revert j. induction ts as [|t ts IH]; intros j.
  - simpl. split; [contradiction|]. intros (_ & t & H & _).
    destruct (i - j); discriminate.
  - rewrite fan_out_cons. simpl fst. rewrite in_app_iff, deliver_one_delivered, IH.
    split.
    + intros [(-> & -> & -> & P)|(Hle & t' & Ht & -> & -> & P)].
      * split; [lia|]. exists t. rewrite Nat.sub_diag. auto.
      * split; [lia|]. exists t'. replace (i - j) with (S (i - S j)) by lia. auto.
    + intros (Hle & t' & Ht & -> & -> & P).
      destruct (Nat.eq_dec i j) as [->|Hne].
      * left. rewrite Nat.sub_diag in Ht. simpl in Ht. inversion Ht; subst. auto.
      * right. split; [lia|]. exists t'.
        replace (i - j) with (S (i - S j)) in Ht by lia. auto.
Qed.

Lemma fan_out_includes ts j e i t :
  nth_error ts i = Some t ->
  (forall x, In x (fst (deliver_one (j + i) t e)) -> In x (fst (fan_out j ts e))) /\
  (forall x, In x (snd (deliver_one (j + i) t e)) -> In x (snd (fan_out j ts e))).
Proof.
  revert j i. induction ts as [|t0 ts IH]; intros j i H; [destruct i; discriminate|].
  rewrite fan_out_cons. simpl.
  destruct i as [|i]; simpl in H.
  - inversion H; subst. rewrite Nat.add_0_r.
    split; intros x Hx; apply in_app_iff; left; exact Hx.
  - destruct (IH (S j) i H) as [H1 H2]. replace (j + S i) with (S j + i) by lia.
    split; intros x Hx; apply in_app_iff; right; auto.
Qed.

(** Running a middleware program that reaches no [next] leaves the events
    unchanged. *)
Lemma run_actions_stop k acts st :
  calls_next acts = false -> trace (res_state (run_actions k acts st)) = trace st.
Proof.
  revert st. induction acts as [|a r IH]; intros st H; simpl; auto.
  destruct a; simpl in H.
  - rewrite IH; auto.
  - discriminate.
  - reflexivity.
Qed.

Lemma run_actions_none k acts st :
  count_proceed acts = 0 -> trace (res_state (run_actions k acts st)) = trace st.
Proof.
  revert st. induction acts as [|a r IH]; intros st H; simpl; auto.
  destruct a; simpl in H.
  - rewrite IH; auto.
  - discriminate.
  - reflexivity.
Qed.

(** A program that calls [next] once: its events are those of [next], run
    on the entry as mutated so far. *)
Lemma run_actions_once k acts st :
  count_proceed acts <= 1 -> calls_next acts = true ->
  exists e', trace (res_state (run_actions k acts st)) =
             trace (res_state (k (mkRun (index st) e' (trace st) (deferred st)))).
Proof.
  revert st. induction acts as [|a r IH]; intros st H C; simpl in C; [discriminate|].
  destruct a; simpl in H |- *.
  - destruct (IH (mkRun (index st) (f (entry st)) (trace st) (deferred st)) H C)
      as [e' He']. exists e'. exact He'.
  - exists (entry st). destruct st as [i e tr d]. simpl.
    destruct (k (mkRun i e tr d)) eqn:K; simpl; [|reflexivity].
    apply run_actions_none. lia.
  - discriminate.
Qed.

Section Chain.
Variable ms : list LogMiddleware.
Variable ts : list LogTransport.
Hypothesis once : forall m, In m ms -> forall e, count_proceed (m e) <= 1.

Lemma next_chain f : forall st,
  List.length ms <= index st + f -> index st <= List.length ms ->
  exists T, trace (res_state (next f ms ts st)) = trace st ++ T /\
            chain ms ts (index st) T.
Proof.
  induction f as [|f IH]; intros st H1 H2;
    destruct (nth_error ms (index st)) as [m|] eqn:E; rewrite next_eq, E; cbn [res_state].
  - assert (index st < List.length ms) by (apply nth_error_Some; congruence). lia.
  - exists (fst (writeToTransports ts (entry st))). rewrite dispatch_trace.
    split; [reflexivity|]. apply chain_end. apply nth_error_None in E. lia.
  - assert (Hlt : index st < List.length ms) by (apply nth_error_Some; congruence).
    destruct (calls_next (m (entry st))) eqn:C.
    + destruct (run_actions_once (next f ms ts) (m (entry st))
                  (mkRun (S (index st)) (entry st)
                     (trace st ++ [Invoked (index st) (entry st)]) (deferred st))
                  (once m (nth_error_In _ _ E) _) C) as [e' He'].
      rewrite He'. simpl.
      destruct (IH (mkRun (S (index st)) e' (trace st ++ [Invoked (index st) (entry st)])
                      (deferred st))) as (T & HT & HC); simpl; [lia|lia|].
      exists (Invoked (index st) (entry st) :: T). simpl in HT. rewrite HT, <- app_assoc.
      split; [reflexivity|]. eapply chain_next; eauto.
    + rewrite run_actions_stop by exact C. simpl.
      exists [Invoked (index st) (entry st)]. split; [reflexivity|].
      eapply chain_stop; eauto.
  - exists (fst (writeToTransports ts (entry st))). rewrite dispatch_trace.
    split; [reflexivity|]. apply chain_end. apply nth_error_None in E. lia.
Qed.

End Chain.

Lemma run_actions_normal k (P : run_state -> Prop) :
  (forall st, P st -> exists st', k st = Normal st' /\ P st') ->
  (forall st e', P st -> P (mkRun (index st) e' (trace st) (deferred st))) ->
  forall acts st, ~ In Raise acts -> P st ->
  exists st', run_actions k acts st = Normal st' /\ P st'.
Proof.
  intros Hk Hm acts. induction acts as [|a r IH]; intros st HR HP; simpl; eauto.
  destruct a.
  - apply IH; [intros H; apply HR; right; exact H | apply Hm; exact HP].
  - destruct (Hk st HP) as (st' & -> & HP'). apply IH; [|exact HP'].
    intros H; apply HR; right; exact H.
  - exfalso. apply HR. left. reflexivity.
Qed.

Lemma next_normal (ms : list LogMiddleware) (ts : list LogTransport) :
  (forall m, In m ms -> forall e, ~ In Raise (m e)) ->
  forall f st, List.length ms <= index st + f ->
  exists st', next f ms ts st = Normal st' /\ index st <= index st'.
Proof.
  intros NR f. induction f as [|f IH]; intros st H;
    match goal with |- exists _, next ?F _ _ _ = _ /\ _ =>
      pose proof (next_eq F ms ts st) as NE end;
    destruct (nth_error ms (index st)) as [m|] eqn:E; rewrite NE.
  - assert (index st < List.length ms) by (apply nth_error_Some; congruence). lia.
  - eexists. split; [reflexivity|]. unfold dispatch.
    destruct (writeToTransports ts (entry st)); simpl; lia.
  - destruct (run_actions_normal (next f ms ts)
                (fun st' => List.length ms <= index st' + f /\ S (index st) <= index st')
                ltac:(intros st' [H1 H2]; destruct (IH st' H1) as (st'' & E'' & H3);
                      exists st''; split; [exact E''|lia])
                ltac:(intros st' e' [H1 H2]; simpl; split; lia)
                (m (entry st))
                (mkRun (S (index st)) (entry st)
                   (trace st ++ [Invoked (index st) (entry st)]) (deferred st))
                (NR m (nth_error_In _ _ E) _)
                ltac:(simpl; split; lia)) as (st' & -> & _ & H2).
    exists st'. split; [reflexivity|lia].
  - eexists. split; [reflexivity|]. unfold dispatch.
    destruct (writeToTransports ts (entry st)); simpl; lia.
Qed.

End PipelineFacts.

Module PipelineClaims.
Import Pipeline PipelineFacts Samples.

(** C1 (as amended). For a logger with no registered middleware, and the
    transport at position [i] of its list: [log(l, ...)] calls that
    transport's [log] iff the logger is not silent, [l] is at or above the
    logger's level, and [l] is at or above the transport's level (a
    transport without a level receives every entry that passes the logger's
    gate). *)
Theorem log_delivery_without_middleware (lg : Logger) l msg ctx err now mc i t :
  middleware lg = [] -> nth_error (transports lg) i = Some t ->
  ((exists e, In (Delivered i (name t) e) (fst (observe (log lg l msg ctx err now mc)))) <->
   silent lg = false /\ (lvl (logger_level lg) <= lvl l)%Z /\
   match transport_level t with None => True | Some L => (lvl L <= lvl l)%Z end).
Proof.
  intros Hm Ht. unfold log. rewrite Hm.
  destruct (silent lg) eqn:S; simpl.
  { split; [intros [e H]; contradiction | intros [H _]; discriminate]. }
  destruct (lvl l <? lvl (logger_level lg))%Z eqn:L; simpl.
  { split; [intros [e H]; contradiction|].
    intros (_ & H & _). apply Z.ltb_lt in L. lia. }
  apply Z.ltb_ge in L.
  set (ent := mkEntry l msg now ctx err (Some mc)).
  change (processEntry [] (transports lg) ent)
    with (Normal (dispatch (transports lg) (mkRun 0 ent [] []))).
  unfold observe, dispatch. rewrite writeToTransports_eq. simpl.
  split.
  - intros [e [H|H]]; [discriminate|].
    apply in_app_iff in H as [H|H];
      [|apply fan_out_later_no_delivered in H; contradiction].
    apply fan_out_delivered in H as (_ & t' & Ht' & _ & -> & P).
    rewrite Nat.sub_0_r, Ht in Ht'. inversion Ht'; subst t'.
    unfold passes_transport in P. simpl in P.
    repeat split; [exact L|].
    destruct (transport_level t); [apply Z.leb_le; exact P | exact I].
  - intros (_ & _ & HT). exists ent. right. apply in_app_iff. left.
    apply fan_out_delivered. split; [lia|]. exists t. rewrite Nat.sub_0_r.
    repeat split; [exact Ht|].
    unfold passes_transport. simpl.
    destruct (transport_level t); [apply Z.leb_le; exact HT | reflexivity].
Qed.

(** C1, counterexample: a middleware that does not call [next] stops the
    entry although the logger is not silent and both levels pass. *)
Lemma log_delivery_counterexample :
  silent lg_drop = false /\ (lvl (logger_level lg_drop) <= lvl INFO)%Z /\
  nth_error (transports lg_drop) 0 = Some sink_all /\ transport_level sink_all = None /\
  ~ (exists e, In (Delivered 0 (name sink_all) e)
                 (fst (observe (log lg_drop INFO "x" None None now0 1)))).
Proof.
  repeat split; try reflexivity; [simpl; lia|].
  intros [e H]. simpl in H. destruct H as [H|H]; [discriminate|contradiction].
Qed.

(** C2 (as amended). A failure of one transport's [log], synchronous or
    asynchronous, is caught and reported for that transport, and every
    transport whose level passes is still called, whatever the others do;
    a [log] call raises to its caller only when a middleware raises: with
    middleware that do not raise, it never raises. *)
Theorem sink_failures_isolated :
  (forall (lg : Logger) l msg ctx err now mc,
     (forall m, In m (middleware lg) -> forall e, ~ In Raise (m e)) ->
     snd (observe (log lg l msg ctx err now mc)) = None) /\
  (forall ts e i t, nth_error ts i = Some t -> passes_transport t e = true ->
     In (Delivered i (name t) e) (fst (writeToTransports ts e)) /\
     (transport_log t e = RaisedSync -> In (Reported i) (fst (writeToTransports ts e))) /\
     (transport_log t e = Pending false -> In (Reported i) (snd (writeToTransports ts e)))).
Proof.
  split.
  - intros lg l msg ctx err now mc NR. unfold log.
    destruct (silent lg || (lvl l <? lvl (logger_level lg))%Z); [reflexivity|].
    unfold processEntry.
    destruct (next_normal (middleware lg) (transports lg) NR (List.length (middleware lg))
                (mkRun 0 (mkEntry l msg now ctx err (Some mc)) [] []))
      as (st' & -> & _); [simpl; lia|].
    reflexivity.
  - intros ts e i t Ht P. rewrite writeToTransports_eq.
    destruct (fan_out_includes ts 0 e i t Ht) as [H1 H2]. simpl in H1, H2.
    unfold deliver_one in H1, H2. rewrite P in H1, H2. simpl fst; simpl snd.
    repeat split.
    + right. apply H1. destruct (transport_log t e) as [| |[]]; simpl; auto.
    + intros Hl. right. apply H1. rewrite Hl. simpl; auto.
    + intros Hl. apply H2. rewrite Hl. simpl; auto.
Qed.

(** C2, counterexample: a middleware that raises makes [log] raise to its
    caller. *)
Lemma sink_failures_counterexample :
  snd (observe (log lg_raise INFO "x" None None now0 1)) = Some MiddlewareFailure.
Proof. reflexivity. Qed.

(** C3 (as amended). When every middleware calls its continuation at most
    once, the events of [processEntry] are: middleware 0, 1, ... invoked in
    registration order, each once, the chain stopping at the first one that
    does not call its continuation, and the fan-out run iff every middleware
    called its continuation ([chain]). *)
Theorem middleware_chain_in_order (ms : list LogMiddleware) (ts : list LogTransport) e :
  (forall m, In m ms -> forall e', count_proceed (m e') <= 1) ->
  chain ms ts 0 (trace (res_state (processEntry ms ts e))).
Proof.
  intros Hon. unfold processEntry.
  destruct (next_chain ms ts Hon (List.length ms) (mkRun 0 e [] []))
    as (T & HT & HC); simpl; [lia|lia|].
  simpl in HT. rewrite HT. exact HC.
Qed.

(** C3, counterexample: middleware 0 calls [next] twice, middleware 1 never
    does; the shared cursor lets the second call reach the fan-out. *)
Lemma middleware_chain_counterexample :
  nth_error [twice_mw; drop_mw] 1 = Some drop_mw /\ calls_next (drop_mw e0) = false /\
  trace (res_state (processEntry [twice_mw; drop_mw] [] e0)) =
    [Invoked 0 e0; Invoked 1 e0; FanOut e0].
Proof. repeat split. Qed.

(** C8 (code bug). [fatal("crash", err)] on a logger with [exitOnError] and a
    file transport: the transport's [log] is called, but [process.exit(1)]
    runs before its pending append completes, so the entry never reaches the
    file; without [exitOnError] the append completes. *)
Theorem fatal_exits_before_file_append :
  fatal (lg_file true) "crash" (Some crash_err) None now0 1 =
    ([FanOut e_fatal; Delivered 0 "file" e_fatal; Exited], None) /\
  fatal (lg_file false) "crash" (Some crash_err) None now0 1 =
    ([FanOut e_fatal; Delivered 0 "file" e_fatal; Completed 0 e_fatal], None).
Proof. split; vm_compute; reflexivity. Qed.

(** Witness for C1: a logger at [INFO] with one memory sink and no
    middleware, logging at [INFO]. *)
Lemma log_delivery_witness :
  middleware lg_plain = [] /\ nth_error (transports lg_plain) 0 = Some sink_all /\
  ((exists e, In (Delivered 0 (name sink_all) e)
                (fst (observe (log lg_plain INFO "x"%string None None now0 0)))) <->
   silent lg_plain = false /\ (lvl (logger_level lg_plain) <= lvl INFO)%Z /\
   match transport_level sink_all with None => True | Some L => (lvl L <= lvl INFO)%Z end).
Proof.
  split; [reflexivity|]. split; [reflexivity|].
  apply (log_delivery_without_middleware lg_plain INFO "x"%string None None now0 0 0 sink_all);
    reflexivity.
Defined.

(** Witness for C2: the same logger, whose (absent) middleware never raise,
    and its sink at position 0 for [e0]. *)
Lemma sink_failures_witness :
  (forall m, In m (middleware lg_plain) -> forall e, ~ In Raise (m e)) /\
  snd (observe (log lg_plain INFO "x"%string None None now0 0)) = None /\
  nth_error [sink_all] 0 = Some sink_all /\ passes_transport sink_all e0 = true /\
  In (Delivered 0 (name sink_all) e0) (fst (writeToTransports [sink_all] e0)).
Proof.
  assert (H : forall m, In m (middleware lg_plain) -> forall e, ~ In Raise (m e))
    by (intros m []).
  split; [exact H|]. split.
  - exact (proj1 sink_failures_isolated lg_plain INFO "x"%string None None now0 0 H).
  - split; [reflexivity|]. split; [reflexivity|].
    exact (proj1 (proj2 sink_failures_isolated [sink_all] e0 0 sink_all
                    eq_refl eq_refl)).
Defined.

(** Witness for C3: one middleware that does not call [next]. *)
Lemma middleware_chain_witness :
  (forall m, In m [drop_mw] -> forall e', count_proceed (m e') <= 1) /\
  chain [drop_mw] [sink_all] 0 (trace (res_state (processEntry [drop_mw] [sink_all] e0))).
Proof.
  assert (H : forall m, In m [drop_mw] -> forall e', count_proceed (m e') <= 1).
  { intros m [<-|[]] e'. simpl. lia. }
  split; [exact H|].
  exact (middleware_chain_in_order [drop_mw] [sink_all] e0 H).
Defined.

End PipelineClaims.

Module FormatterClaims.
Import Formatters Samples.

Lemma lookup_in_dom h a o : lookup h a = Some o -> In a (map fst h).
Proof.
  induction h as [|[b o'] h IH]; simpl; [discriminate|].
  destruct (Nat.eqb a b) eqn:E; intros H.
  - left. symmetry. apply Nat.eqb_eq. exact E.
  - right. apply IH. exact H.
Qed.

Lemma members_only_json_errors {X : Type} (f : X -> outcome (option string)) ps :
  (forall k x, In (k, x) ps -> only_json_errors (f x)) -> only_json_errors (members f ps).
Proof.
  induction ps as [|[k x] ps IH]; intros H; simpl; [exact I|].
  pose proof (H k x (or_introl eq_refl)) as Hx.
  destruct (f x) as [r|ex]; [|exact Hx].
  specialize (IH (fun k' x' H' => H k' x' (or_intror H'))).
  destruct (members f ps) as [rs|ex]; [destruct r; exact I | exact IH].
Qed.

(** With [stack] duplicate-free objects of the heap, fuel beyond the
    remaining heap size is never exhausted: [JSON.stringify] yields a text or
    one of its own exceptions. *)
Lemma stringify_val_only_json_errors fuel : forall h stack v,
  NoDup stack -> incl stack (map fst h) ->
  List.length h < List.length stack + fuel ->
  only_json_errors (stringify_val fuel h stack v).
Proof.
  induction fuel as [|fuel IH]; intros h stack v ND INC LT;
    destruct v as [| |[]| | | |a| |]; simpl; try exact I; try reflexivity;
    destruct (existsb (Nat.eqb a) stack) eqn:EX; try reflexivity.
  - pose proof (NoDup_incl_length ND INC) as L. rewrite length_map in L. lia.
  - destruct (lookup h a) as [o|] eqn:LK; [|exact I].
    assert (NI : ~ In a stack).
    { intros Hin. assert (existsb (Nat.eqb a) stack = true) as C
        by (apply existsb_exists; exists a; split; [exact Hin | apply Nat.eqb_refl]).
      congruence. }
    assert (INC' : incl (a :: stack) (map fst h))
      by (apply incl_cons; [eapply lookup_in_dom; eauto | exact INC]).
    assert (ND' : NoDup (a :: stack)) by (constructor; assumption).
    pose proof (members_only_json_errors (stringify_val fuel h (a :: stack)) o
                  (fun k x _ => IH h (a :: stack) x ND' INC' ltac:(simpl; lia))) as M.
    destruct (members (stringify_val fuel h (a :: stack)) o); [exact I | exact M].
Qed.

Lemma stringify_only_json_errors h v : only_json_errors (stringify h v).
Proof.
  apply stringify_val_only_json_errors; [constructor | intros x [] | simpl; lia].
Qed.

Lemma stringify_literal_only_json_errors h ps : only_json_errors (stringify_literal h ps).
Proof.
  unfold stringify_literal.
  pose proof (members_only_json_errors (stringify_field h) ps) as M.
  destruct (members (stringify_field h) ps); [exact I|]. apply M.
  intros k [v|qs] _; simpl; [apply stringify_only_json_errors|].
  pose proof (members_only_json_errors (stringify h) qs
                (fun _ x _ => stringify_only_json_errors h x)) as M'.
  destruct (members (stringify h) qs); [exact I | exact M'].
Qed.

(** C9 (as amended). The JSON and simple formatters either return a text or
    raise an exception of [JSON.stringify]: the circular-structure
    TypeError, the BigInt TypeError, or one raised by a getter or [toJSON]
    method it runs. They substitute no placeholder: a cyclic context makes
    both raise the circular-structure TypeError, and a context holding a
    BigInt makes both raise the BigInt TypeError. *)
Theorem formatters_text_or_stringify_error :
  (forall h e, only_json_errors (JsonFormatter_format h e) /\
               only_json_errors (SimpleFormatter_format h e)) /\
  (exists h e, JsonFormatter_format h e = Throw TypeError_circular /\
               SimpleFormatter_format h e = Throw TypeError_circular) /\
  (exists h e, JsonFormatter_format h e = Throw TypeError_bigint /\
               SimpleFormatter_format h e = Throw TypeError_bigint).
Proof.
  split; [|split].
  - intros h e. split; [apply stringify_literal_only_json_errors|].
    unfold SimpleFormatter_format.
    destruct (context e) as [c|]; [|destruct (error e) as [er|];
      [destruct (err_stack er) as [st|]; [destruct (String.eqb st "")|] |]; exact I].
    destruct (lookup h c) as [[|p ps]|]; simpl;
      [ | | ].
    all: try (destruct (error e) as [er|];
      [destruct (err_stack er) as [st|]; [destruct (String.eqb st "")|] |]; exact I).
    pose proof (stringify_only_json_errors h (VRef c)) as S.
    destruct (stringify h (VRef c)) as [[t|]|ex]; [| |exact S];
      destruct (error e) as [er|];
      try (destruct (err_stack er) as [st|]; [destruct (String.eqb st "")|]); exact I.
  - exists h_cyc, e_cyc. split; vm_compute; reflexivity.
  - exists h_big, e_big. split; vm_compute; reflexivity.
Qed.

(** C9, counterexample: the object of the circular-reference test, passed
    as context, makes [JsonFormatter.format] and [SimpleFormatter.format]
    raise; so does a context holding a BigInt. *)
Lemma formatters_counterexample :
  JsonFormatter_format h_cyc e_cyc = Throw TypeError_circular /\
  SimpleFormatter_format h_cyc e_cyc = Throw TypeError_circular /\
  JsonFormatter_format h_big e_big = Throw TypeError_bigint /\
  SimpleFormatter_format h_big e_big = Throw TypeError_bigint.
Proof. repeat split; vm_compute; reflexivity. Qed.

End FormatterClaims.

Module FileClaims.
Import FileSink Samples.

Lemma string_length_app (a b : string) :
  String.length (a ++ b) = String.length a + String.length b.
Proof. induction a as [|c a IH]; simpl; [reflexivity | rewrite IH; reflexivity]. Qed.

Lemma rotated_ne (c : FileTransportConfig) i : rotated c i <> filename c.
Proof.
  unfold rotated. intros H. apply (f_equal String.length) in H.
  rewrite string_length_app in H. simpl in H. lia.
Qed.

Lemma rotate_step_active c i fs : rotate_step c i fs (filename c) = fs (filename c).
Proof.
  unfold rotate_step. destruct (fs (rotated c i)); [|reflexivity].
  destruct (Z.eqb i (maxFiles c - 1)).
  - unfold fs_unlink. destruct (String.eqb (filename c) (rotated c i)) eqn:E; [|reflexivity].
    apply String.eqb_eq in E. symmetry in E. exfalso. exact (rotated_ne c i E).
  - unfold fs_rename.
    destruct (String.eqb (filename c) (rotated c (i + 1))) eqn:E1.
    { apply String.eqb_eq in E1. symmetry in E1. exfalso. exact (rotated_ne c _ E1). }
    destruct (String.eqb (filename c) (rotated c i)) eqn:E2; [|reflexivity].
    apply String.eqb_eq in E2. symmetry in E2. exfalso. exact (rotated_ne c i E2).
Qed.

(** The loop of [rotate] never touches the active file. *)
Lemma rotate_loop_active c k : forall fs, rotate_loop c k fs (filename c) = fs (filename c).
Proof.
  induction k as [|k IH]; intros fs; simpl; [reflexivity|].
  rewrite IH. apply rotate_step_active.
Qed.



Lemma utf16_length_nonneg s : (0 <= utf16_length s)%Z.
Proof.
  induction s as [|b s IH]; simpl; [lia|].
  destruct (Nat.ltb _ 128); [|destruct (Nat.ltb _ 192); [|destruct (Nat.ltb _ 240)]]; lia.
Qed.

Lemma settles_det c w w1 w2 : settles c w w1 -> settles c w w2 -> w1 = w2.
Proof.
  intros H1. revert w2. induction H1 as [w E|w w1 NE H1 IH]; intros w2 H2;
    inversion H2 as [w' E'|w' w2' NE' H2']; subst; auto; congruence.
Qed.



(** A lone call that does not rotate, resumed with the append carried out. *)
Lemma call_settles_plain c h w e s :
  pending w = [] -> (lvl (file_level c) <= lvl (level e))%Z -> format c h e = Ok s ->
  (currentSize (state w) + utf16_length (s ++ Formatters.nl) <= maxSize c)%Z ->
  settles c (call c h e w)
    (mkWorld (mkFileState (currentSize (state w) + utf16_length (s ++ Formatters.nl)))
             (fs_append (files w) (filename c) (s ++ Formatters.nl)) [] (reports w)).
Proof.
  intros P L F S. unfold call.
  replace (lvl (level e) <? lvl (file_level c))%Z with false by (symmetry; apply Z.ltb_ge; exact L).
  rewrite F, P.
  replace (maxSize c <? currentSize (state w) + utf16_length (s ++ Formatters.nl))%Z
    with false by (symmetry; apply Z.ltb_ge; exact S).
  apply settles_step; [discriminate|]. apply settles_done. reflexivity.
Qed.


Lemma fs_append_active fs a t :
  fs_append fs a t a = Some (match fs a with Some c => c | None => EmptyString end ++ t)%string.
Proof. unfold fs_append. rewrite String.eqb_refl. reflexivity. Qed.

Lemma fs_append_other fs a t n : n <> a -> fs_append fs a t n = fs n.
Proof. intros H. unfold fs_append. apply String.eqb_neq in H. rewrite H. reflexivity. Qed.




End FileClaims.

Module HttpClaims.
Import HttpSink Samples.

(** C5 (as amended). When the buffer holds [batchSize - 1] entries and a
    delivery passes the level filter: if the [batchSize] pending entries
    serialise, exactly one [fetch] is made, carrying exactly those entries in
    submission order, and the buffer is emptied; if [JSON.stringify] raises,
    no [fetch] is made and the entries stay in the buffer. *)
Theorem http_batch_flush (c : HttpTransportConfig) h st e :
  (lvl (http_level c) <= lvl (level e))%Z ->
  (Z.of_nat (List.length (buffer st)) + 1 = batchSize c)%Z ->
  let st' := http_log c h st e in
  match body h (buffer st ++ [e]) with
  | Ok _ =>
      transmissions st' = transmissions st ++ [buffer st ++ [e]] /\
      buffer st' = [] /\ inflight st' = inflight st ++ [buffer st ++ [e]]
  | Throw _ =>
      transmissions st' = transmissions st /\ buffer st' = buffer st ++ [e] /\
      inflight st' = inflight st
  end.
Proof.
  intros Hl Hb st'. subst st'. unfold http_log.
  destruct (lvl (level e) <? lvl (http_level c))%Z eqn:L; [apply Z.ltb_lt in L; lia|].
  simpl. rewrite length_app. simpl.
  destruct (batchSize c <=? Z.of_nat (List.length (buffer st) + 1))%Z eqn:B;
    [|apply Z.leb_gt in B; lia].
  unfold flush. simpl.
  destruct (buffer st ++ [e]) as [|x xs] eqn:BE; [destruct (buffer st); discriminate|].
  destruct (body h (x :: xs)); simpl; rewrite ?app_nil_r; auto.
Qed.

(** C5, counterexample: with [batchSize = 3], the third delivery carries
    the cyclic context of the circular-reference test; no transmission is
    made and the three entries stay buffered. *)
Lemma http_batch_counterexample :
  let st := http_log http_cfg3 h_cyc
              (http_log http_cfg3 h_cyc (http_log http_cfg3 h_cyc http_empty e0) e0) e_cyc in
  transmissions st = [] /\ buffer st = [e0; e0; e_cyc].
Proof. vm_compute. split; reflexivity. Qed.

Lemma concat_remove_nth {A : Type} (l : list (list A)) j x :
  nth_error l j = Some x -> Permutation (List.concat l) (x ++ List.concat (remove_nth j l)).
Proof.
  revert j. induction l as [|y l IH]; intros j H; [destruct j; discriminate|].
  destruct j as [|j]; simpl in H |- *.
  - inversion H; subst. apply Permutation_refl.
  - rewrite (IH j H). apply Permutation_app_swap_app.
Qed.

(** C6. When the [fetch] of a flush fails (rejected, or a non-ok response),
    the entries that flush removed go back to the front of the buffer, in
    their order, ahead of everything queued since; no entry is lost: the
    buffered and in-flight entries are the same as before, as a multiset. *)
Theorem http_failure_requeues_front st j entries :
  nth_error (inflight st) j = Some entries ->
  let st' := settle st j false in
  buffer st' = entries ++ buffer st /\
  Permutation (buffer st' ++ List.concat (inflight st')) (buffer st ++ List.concat (inflight st)).
Proof.
  intros H st'. subst st'. unfold settle. rewrite H. simpl. split; [reflexivity|].
  rewrite (concat_remove_nth _ _ _ H).
  rewrite <- app_assoc. apply Permutation_app_swap_app.
Qed.

(** Witness for C5: the third entry delivered to a transport with batch
    size 3. *)
Lemma http_batch_witness :
  (lvl (http_level http_cfg3) <= lvl (level e0))%Z /\
  (Z.of_nat (List.length (buffer (mkHttp [e0; e0] [] []))) + 1 = batchSize http_cfg3)%Z /\
  (let st' := http_log http_cfg3 [] (mkHttp [e0; e0] [] []) e0 in
   match body [] (buffer (mkHttp [e0; e0] [] []) ++ [e0]) with
   | Ok _ =>
       transmissions st' = transmissions (mkHttp [e0; e0] [] []) ++
                             [buffer (mkHttp [e0; e0] [] []) ++ [e0]] /\
       buffer st' = [] /\
       inflight st' = inflight (mkHttp [e0; e0] [] []) ++
                        [buffer (mkHttp [e0; e0] [] []) ++ [e0]]
   | Throw _ =>
       transmissions st' = transmissions (mkHttp [e0; e0] [] []) /\
       buffer st' = buffer (mkHttp [e0; e0] [] []) ++ [e0] /\
       inflight st' = inflight (mkHttp [e0; e0] [] [])
   end).
Proof.
  assert (H1 : (lvl (http_level http_cfg3) <= lvl (level e0))%Z) by (simpl; lia).
  assert (H2 : (Z.of_nat (List.length (buffer (mkHttp [e0; e0] [] []))) + 1
                = batchSize http_cfg3)%Z) by reflexivity.
  split; [exact H1|]. split; [exact H2|].
  exact (http_batch_flush http_cfg3 [] (mkHttp [e0; e0] [] []) e0 H1 H2).
Defined.

(** Witness for C6: the failure of the only in-flight batch [[e0; e0]]
    while [[e0]] is buffered. *)
Lemma http_failure_witness :
  nth_error (inflight (mkHttp [e0] [[e0; e0]] [[e0; e0]])) 0 = Some [e0; e0] /\
  buffer (settle (mkHttp [e0] [[e0; e0]] [[e0; e0]]) 0 false)
  = [e0; e0] ++ buffer (mkHttp [e0] [[e0; e0]] [[e0; e0]]).
Proof.
  assert (H : nth_error (inflight (mkHttp [e0] [[e0; e0]] [[e0; e0]])) 0 = Some [e0; e0])
    by reflexivity.
  split; [exact H|].
  exact (proj1 (http_failure_requeues_front (mkHttp [e0] [[e0; e0]] [[e0; e0]]) 0 [e0; e0] H)).
Defined.

End HttpClaims.

Module MemoryClaims.
Import MemorySink.

Lemma skipn_S_tl {A : Type} m : forall (L : list A), skipn (S m) L = tl (skipn m L).
Proof.
  induction m as [|m IH]; intros [|x L]; try reflexivity.
  exact (IH L).
Qed.

(** Keeping the last [n] elements, one more element at a time: append, then
    drop the oldest if the result is over [n]. *)
Lemma lastn_snoc {A : Type} n (l : list A) e :
  lastn n (l ++ [e]) =
  if n <? List.length (lastn n l ++ [e]) then tl (lastn n l ++ [e]) else lastn n l ++ [e].
Proof.
  unfold lastn. rewrite length_app, length_app, length_skipn. simpl.
  destruct (Nat.ltb_spec n (List.length l - (List.length l - n) + 1)) as [Hlt|Hge].
  - replace (List.length l + 1 - n) with (S (List.length l - n)) by lia.
    rewrite skipn_S_tl, skipn_app.
    replace (List.length l - n - List.length l) with 0 by lia. reflexivity.
  - replace (List.length l + 1 - n) with 0 by lia.
    replace (List.length l - n) with 0 by lia. reflexivity.
Qed.



Lemma fold_retained m n es : forall s acc,
  mem_maxSize m = Z.of_nat n ->
  retained m s = lastn n acc ->
  retained m (fold_left (mem_log m) es s) = lastn n (acc ++ filter (accepted (mem_level m)) es).
Proof.
  induction es as [|e es IH]; intros s acc Hn Hr; simpl.
  - rewrite app_nil_r. exact Hr.
  - unfold accepted at 1.
    destruct (lvl (level e) <? lvl (mem_level m))%Z eqn:L.
    + replace (lvl (mem_level m) <=? lvl (level e))%Z with false
        by (symmetry; apply Z.leb_gt; apply Z.ltb_lt; exact L).
      unfold mem_log at 2. rewrite L. apply IH; assumption.
    + replace (lvl (mem_level m) <=? lvl (level e))%Z with true
        by (symmetry; apply Z.leb_le; apply Z.ltb_ge; exact L).
      change (e :: filter (accepted (mem_level m)) es)
        with ([e] ++ filter (accepted (mem_level m)) es).
      rewrite app_assoc. apply IH; [exact Hn|].
      unfold mem_log. rewrite L, lastn_snoc, <- Hr, Hn.
      unfold retained at 1. fold (retained m s).
      replace (Z.of_nat n <? Z.of_nat (List.length (retained m s ++ [e])))%Z
        with (n <? List.length (retained m s ++ [e]))
        by (destruct (Nat.ltb_spec n (List.length (retained m s ++ [e])));
            symmetry; [apply Z.ltb_lt | apply Z.ltb_ge]; lia).
      destruct (n <? _); unfold set_array, retained; simpl;
        rewrite Nat.eqb_refl; reflexivity.
Qed.



End MemoryClaims.

Module ChildClaims.
Import Pipeline Child Samples.

Ltac eqb_cases :=
  repeat match goal with
         | |- context [Nat.eqb ?a ?b] => destruct (Nat.eqb_spec a b); try lia
         end.

(** C7 (as amended). A child created by [child(meta)] holds the parent's
    own transports array: a transport added to the parent afterwards is
    seen by the child (until the parent's [removeTransport] replaces the
    parent's array, after which additions to the parent are not seen). The
    child's middleware array is a copy: [use] on the parent after the
    child's creation does not change the child's middleware, and [use] on
    the child does not change the parent's. *)
Theorem child_shares_transports_copies_middleware lg s t m n :
  allocated lg s ->
  let c := fst (child lg s) in
  let s1 := snd (child lg s) in
  getTransports c (addTransport lg t s1) = getTransports lg s ++ [t] /\
  getTransports c (addTransport (fst (removeTransport lg n s1)) t
                     (snd (removeTransport lg n s1))) = getTransports lg s /\
  getMiddleware c s1 = getMiddleware lg s /\
  getMiddleware c (use lg m s1) = getMiddleware lg s /\
  getMiddleware lg (use c m s1) = getMiddleware lg s.
Proof.
  intros [Ht Hm] c s1. subst c s1.
  unfold child, addTransport, removeTransport, getTransports, use, getMiddleware, upd.
  cbn -[Nat.eqb]. repeat split; eqb_cases; reflexivity.
Qed.

(** C7, counterexample: a transport added to the parent after the child's
    creation is in the child's transports. *)
Lemma child_transports_counterexample :
  getTransports (fst (child parent0 child_store0)) (snd (child parent0 child_store0)) = [] /\
  getTransports (fst (child parent0 child_store0))
    (addTransport parent0 sink_all (snd (child parent0 child_store0))) = [sink_all].
Proof. split; reflexivity. Qed.

(** Witness for C7: the sample parent (transports array 0, middleware
    array 1) in a store with two arrays. *)
Lemma child_witness :
  allocated parent0 child_store0 /\
  getTransports (fst (child parent0 child_store0))
    (addTransport parent0 sink_all (snd (child parent0 child_store0)))
  = getTransports parent0 child_store0 ++ [sink_all].
Proof.
  assert (H : allocated parent0 child_store0) by (unfold allocated; simpl; lia).
  split; [exact H|].
  exact (proj1 (child_shares_transports_copies_middleware parent0 child_store0 sink_all
                  drop_mw "memory"%string H)).
Defined.

End ChildClaims.

(** * Further properties of the code *)

Module SanitizeFacts.
Import Views.
Local Open Scope string_scope.

Lemma sanitize_obj_props fs ps :
  sanitizeObject fs (JObj true ps) = of_props (sanitize_props fs ps).
Proof.
  cbn [sanitizeObject].
  match goal with |- (let '(_, _) := ?F ps in _) = _ =>
    assert (E : forall l, F l = sanitize_props fs l) end.
  { intros l. induction l as [|[k x] r IH]; [reflexivity|].
    cbn. rewrite IH. reflexivity. }
  rewrite E. destruct (sanitize_props fs ps) as [[p|] qs]; reflexivity.
Qed.

Lemma sanitize_obj fs b ps : sanitizeObject fs (JObj b ps) = of_props (sanitize_props fs ps).
Proof. rewrite <- sanitize_obj_props. reflexivity. Qed.

Lemma sanitize_proto fs q ps : sanitizeObject fs (JProtoObj q ps) = of_props (sanitize_props fs ps).
Proof. rewrite <- sanitize_obj_props. reflexivity. Qed.

Lemma redacted_arr fs xs : redacted fs (JArr xs) <-> Forall (redacted fs) xs.
Proof.
  induction xs as [|x r IH]; simpl.
  - split; auto.
  - rewrite Forall_cons_iff. simpl in IH. rewrite IH. tauto.
Qed.

Lemma redacted_obj fs b ps :
  redacted fs (JObj b ps) <->
  Forall (fun kx => fst kx <> "__proto__" /\
                    (if sensitive fs (fst kx) then snd kx = JStr redacted_text
                     else redacted fs (snd kx))) ps.
Proof.
  induction ps as [|[k x] r IH]; simpl.
  - split; auto.
  - rewrite Forall_cons_iff. simpl in IH. rewrite IH. simpl. tauto.
Qed.

Lemma redacted_proto fs p ps :
  redacted fs (JProtoObj p ps) <-> redacted fs p /\ redacted fs (JObj true ps).
Proof. simpl. tauto. Qed.

Lemma sanitize_props_keys fs ps :
  map fst (snd (sanitize_props fs ps)) = filter (fun k => negb (String.eqb k "__proto__")) (map fst ps).
Proof.
  induction ps as [|[k x] r IH]; [reflexivity|].
  cbn [sanitize_props map fst]. destruct (sanitize_props fs r) as [pr qs]. simpl in IH.
  simpl. destruct (String.eqb k "__proto__"); simpl; [exact IH | rewrite IH; reflexivity].
Qed.

Lemma sanitize_props_no_key fs ps :
  (forall kx, In kx (snd (sanitize_props fs ps)) -> fst kx <> "__proto__").
Proof.
  intros kx Hin. apply (in_map fst) in Hin. rewrite sanitize_props_keys in Hin.
  apply filter_In in Hin as [_ H]. intros E. rewrite E in H. discriminate.
Qed.

Lemma sanitize_props_values fs ps :
  Forall (fun kx => if sensitive fs (fst kx) then snd kx = JStr redacted_text
                    else exists x, In (fst kx, x) ps /\ snd kx = sanitizeObject fs x)
         (snd (sanitize_props fs ps)).
Proof.
  induction ps as [|[k x] r IH]; [constructor|].
  cbn [sanitize_props]. destruct (sanitize_props fs r) as [pr qs]. simpl in IH.
  assert (IH' : Forall (fun kx => if sensitive fs (fst kx) then snd kx = JStr redacted_text
                    else exists x0, In (fst kx, x0) ((k, x) :: r) /\ snd kx = sanitizeObject fs x0) qs).
  { eapply Forall_impl; [|exact IH]. intros [k' x'] H. simpl in *.
    destruct (sensitive fs k'); [exact H|]. destruct H as [x0 [Hi He]]. exists x0. split; [right; exact Hi | exact He]. }
  destruct (String.eqb k "__proto__"); simpl; [exact IH'|].
  constructor; [|exact IH']. simpl. destruct (sensitive fs k) eqn:S; [reflexivity|].
  exists x. split; [left; reflexivity | reflexivity].
Qed.

Lemma sanitize_props_proto fs ps p :
  fst (sanitize_props fs ps) = Some p ->
  exists x, In ("__proto__", x) ps /\ sensitive fs "__proto__" = false /\
            p = sanitizeObject fs x /\ proto_like p = true.
Proof.
  induction ps as [|[k x] r IH]; [discriminate|].
  cbn [sanitize_props]. destruct (sanitize_props fs r) as [pr qs]. simpl in IH.
  destruct (String.eqb k "__proto__") eqn:E; cbn [fst].
  - apply String.eqb_eq in E. subst k. destruct pr as [p'|].
    + intros H. destruct (IH H) as [x0 [Hi R]]. exists x0. split; [right; exact Hi | exact R].
    + destruct (sensitive fs "__proto__") eqn:S; [intros H; discriminate|].
      destruct (proto_like (sanitizeObject fs x)) eqn:Pl; [|intros H; discriminate].
      intros H. injection H as <-. exists x. repeat split; auto. left; reflexivity.
  - intros H. destruct (IH H) as [x0 [Hi R]]. exists x0. split; [right; exact Hi | exact R].
Qed.

Lemma sanitize_props_none fs ps :
  (forall x, ~ In ("__proto__", x) ps) -> fst (sanitize_props fs ps) = None.
Proof.
  intros H. destruct (fst (sanitize_props fs ps)) as [p|] eqn:E; [|reflexivity].
  destruct (sanitize_props_proto fs ps p E) as [x [Hi _]]. exfalso. exact (H x Hi).
Qed.

Lemma sanitize_props_exact fs ps x :
  NoDup (map fst ps) -> In ("__proto__", x) ps -> sensitive fs "__proto__" = false ->
  proto_like (sanitizeObject fs x) = true ->
  fst (sanitize_props fs ps) = Some (sanitizeObject fs x).
Proof.
  induction ps as [|[k x0] r IH]; intros Nd Hi S Pl; [destruct Hi|].
  simpl in Nd. apply NoDup_cons_iff in Nd as [Nk Nd].
  cbn [sanitize_props]. pose proof (sanitize_props_none fs r) as Hn.
  destruct (sanitize_props fs r) as [pr qs] eqn:Er. simpl in IH, Hn.
  destruct Hi as [Hh|Hi].
  - injection Hh as Ek Ex. subst k x0. rewrite String.eqb_refl, S. simpl.
    rewrite Hn; [rewrite Pl; reflexivity|].
    intros x1 H1. apply Nk. apply (in_map fst) in H1. exact H1.
  - assert (Hk : String.eqb k "__proto__" = false).
    { apply String.eqb_neq. intros ->. apply Nk. apply (in_map fst) in Hi. exact Hi. }
    rewrite Hk. simpl. apply IH; assumption.
Qed.

Lemma sanitize_redacted fs v : redacted fs (sanitizeObject fs v).
Proof.
  assert (Obj : forall ps, Forall (fun kx => redacted fs (sanitizeObject fs (snd kx))) ps ->
                redacted fs (sanitizeObject fs (JObj true ps))).
  { intros ps H. rewrite sanitize_obj.
    assert (Hq : redacted fs (JObj true (snd (sanitize_props fs ps)))).
    { apply redacted_obj. pose proof (sanitize_props_values fs ps) as V.
      pose proof (sanitize_props_no_key fs ps) as K.
      rewrite Forall_forall in V, H |- *. intros [k y] Hin. split; [exact (K _ Hin)|].
      specialize (V _ Hin). simpl in V |- *. destruct (sensitive fs k); [exact V|].
      destruct V as [x [Hx ->]]. exact (H _ Hx). }
    destruct (sanitize_props fs ps) as [[p|] qs] eqn:E; [|exact Hq].
    apply redacted_proto. split; [|exact Hq].
    assert (Ep : fst (sanitize_props fs ps) = Some p) by (rewrite E; reflexivity).
    destruct (sanitize_props_proto fs ps p Ep) as [x [Hx [_ [-> _]]]].
    rewrite Forall_forall in H. exact (H _ Hx). }
  induction v using jv_ind_nested; try exact I.
  - change (sanitizeObject fs (JArr xs)) with (JArr (map (sanitizeObject fs) xs)).
    apply redacted_arr. induction H as [|x r Hx Hr IH]; simpl; constructor; auto.
  - rewrite sanitize_obj, <- sanitize_obj_props. apply Obj. exact H.
  - rewrite sanitize_proto, <- sanitize_obj_props. apply Obj. exact H.
Qed.

Lemma sanitize_props_plain fs ps :
  forallb (fun kx => negb (String.eqb (fst kx) "__proto__")) ps = true ->
  sanitize_props fs ps =
  (None, map (fun kx => (fst kx, if sensitive fs (fst kx) then JStr redacted_text
                                 else sanitizeObject fs (snd kx))) ps).
Proof.
  induction ps as [|[k x] r IH]; intros H; [reflexivity|].
  simpl in H. apply andb_true_iff in H as [Hk H]. apply negb_true_iff in Hk.
  cbn [sanitize_props]. rewrite (IH H), Hk. reflexivity.
Qed.

Lemma no_proto_key_keys ps :
  forallb (fun kx => negb (String.eqb (fst kx) "__proto__") && no_proto_key (snd kx)) ps = true ->
  forallb (fun kx => negb (String.eqb (fst kx) "__proto__")) ps = true /\
  Forall (fun kx => no_proto_key (snd kx) = true) ps.
Proof.
  induction ps as [|[k x] r IH]; intros H; [split; [reflexivity|constructor]|].
  simpl in H. apply andb_true_iff in H as [H1 H2]. apply andb_true_iff in H1 as [Hk Hx].
  destruct (IH H2) as [A B]. split; [simpl; rewrite Hk; exact A | constructor; assumption].
Qed.

Lemma sanitize_idem_obj fs ps :
  Forall (fun kx => no_proto_key (snd kx) = true ->
                    sanitizeObject fs (sanitizeObject fs (snd kx)) = sanitizeObject fs (snd kx)) ps ->
  forallb (fun kx => negb (String.eqb (fst kx) "__proto__") && no_proto_key (snd kx)) ps = true ->
  sanitizeObject fs (sanitizeObject fs (JObj true ps)) = sanitizeObject fs (JObj true ps).
Proof.
  intros IH Hp. apply no_proto_key_keys in Hp as [Hk Hv].
  rewrite (sanitize_obj fs true ps), (sanitize_props_plain fs ps Hk). cbn [of_props].
  assert (Hk' : forallb (fun kx => negb (String.eqb (fst kx) "__proto__"))
                  (map (fun kx => (fst kx, if sensitive fs (fst kx) then JStr redacted_text
                                           else sanitizeObject fs (snd kx))) ps) = true).
  { clear IH Hv. induction ps as [|[k x] r IHr]; [reflexivity|]. simpl in *.
    apply andb_true_iff in Hk as [H1 H2]. rewrite H1. exact (IHr H2). }
  rewrite sanitize_obj, (sanitize_props_plain fs _ Hk'). cbn [of_props]. f_equal.
  clear Hk Hk'. induction IH as [|[k x] r Hx Hr IHr]; [reflexivity|].
  inversion Hv as [|? ? Hx' Hv']; subst. simpl in *.
  destruct (sensitive fs k); [f_equal; exact (IHr Hv')|].
  rewrite (Hx Hx'). f_equal. exact (IHr Hv').
Qed.

Lemma sanitize_idem fs v :
  no_proto_key v = true -> sanitizeObject fs (sanitizeObject fs v) = sanitizeObject fs v.
Proof.
  induction v using jv_ind_nested; intros Hp; try reflexivity.
  - simpl in Hp |- *. rewrite map_map. f_equal. induction H; simpl in *; [reflexivity|].
    apply andb_true_iff in Hp as [H1 H2]. rewrite (H H1), (IHForall H2). reflexivity.
  - rewrite !sanitize_obj, <- !sanitize_obj_props. apply sanitize_idem_obj; assumption.
  - rewrite !sanitize_proto, <- !sanitize_obj_props. apply sanitize_idem_obj; assumption.
Qed.

Lemma sanitize_nil_plain v : plain_data v = true -> sanitizeObject [] v = v.
Proof.
  induction v using jv_ind_nested; intros Hp; try reflexivity; try discriminate.
  - simpl in Hp |- *. f_equal. induction H; simpl in *; [reflexivity|].
    apply andb_true_iff in Hp as [H1 H2]. rewrite H, IHForall; auto.
  - apply andb_true_iff in Hp as [Hb Hp]. subst b. rewrite sanitize_obj.
    assert (Hk : forallb (fun kx => negb (String.eqb (fst kx) "__proto__")) ps = true).
    { clear H. induction ps as [|[k x] r IH]; [reflexivity|]. simpl in *.
      apply andb_true_iff in Hp as [H1 H2]. apply andb_true_iff in H1 as [H1 _].
      rewrite H1. exact (IH H2). }
    rewrite (sanitize_props_plain [] ps Hk). simpl. f_equal.
    induction H as [|[k x] r Hx Hr IH]; simpl in *; [reflexivity|].
    apply andb_true_iff in Hp as [H1 H2]. apply andb_true_iff in H1 as [_ Hx'].
    rewrite Hx, IH; auto. apply andb_true_iff in Hk as [_ Hk]. exact Hk.
Qed.

End SanitizeFacts.

Module JsMapFacts.
Import JsMap.

Section Facts.
Context {V : Type}.

Lemma get_set_same (m : list (string * V)) k v : get (set m k v) k = Some v.
Proof.
  induction m as [|[k' v'] r IH]; simpl.
  - rewrite String.eqb_refl. reflexivity.
  - destruct (String.eqb k k') eqn:E; simpl.
    + rewrite E. reflexivity.
    + rewrite E. exact IH.
Qed.

Lemma get_set_other (m : list (string * V)) k k' v :
  k' <> k -> get (set m k v) k' = get m k'.
Proof.
  intros Hne. induction m as [|[k0 v0] r IH]; simpl.
  - apply String.eqb_neq in Hne. rewrite Hne. reflexivity.
  - destruct (String.eqb k k0) eqn:E; simpl.
    + apply String.eqb_eq in E. subst k0.
      apply String.eqb_neq in Hne. rewrite Hne. reflexivity.
    + destruct (String.eqb k' k0); [reflexivity | exact IH].
Qed.

Lemma delete_set_same (m : list (string * V)) k v : delete (set m k v) k = delete m k.
Proof.
  unfold delete. induction m as [|[k' v'] r IH]; simpl.
  - rewrite String.eqb_refl. reflexivity.
  - destruct (String.eqb k k') eqn:E; simpl.
    + apply String.eqb_eq in E. subst k'. rewrite String.eqb_refl. reflexivity.
    + rewrite String.eqb_sym, E. simpl. rewrite IH. reflexivity.
Qed.

Lemma keys_set (m : list (string * V)) k v :
  keys (set m k v) = if existsb (String.eqb k) (keys m) then keys m else keys m ++ [k].
Proof.
  unfold keys. induction m as [|[k' v'] r IH]; simpl; [reflexivity|].
  destruct (String.eqb k k') eqn:E; simpl; [reflexivity|].
  rewrite IH. destruct (existsb (String.eqb k) (map fst r)); reflexivity.
Qed.

Lemma keys_delete (m : list (string * V)) k :
  keys (delete m k) = filter (fun k' => negb (String.eqb k' k)) (keys m).
Proof.
  unfold keys, delete. induction m as [|[k' v'] r IH]; simpl; [reflexivity|].
  destruct (String.eqb k' k); simpl; [exact IH | rewrite IH; reflexivity].
Qed.

Lemma get_In (m : list (string * V)) k v : get m k = Some v -> In (k, v) m.
Proof.
  induction m as [|[k' v'] r IH]; simpl; [discriminate|].
  destruct (String.eqb k k') eqn:E.
  - apply String.eqb_eq in E. subst. intros [= ->]. left. reflexivity.
  - intros H. right. exact (IH H).
Qed.

End Facts.
End JsMapFacts.

Module PerfFacts.
Import Perf JsMapFacts.
Local Open Scope string_scope.

Lemma time_then_timeEnd st label t0 t1 :
  t0 <> 0%Z ->
  timeEnd (time st label t0) label t1 =
  (mkPerf (JsMap.delete (timers st) label) (profiles st),
   mkCall INFO (label ++ ": " ++ number_text (t1 - t0) ++ "ms")
     (Some (JObj true [("performance",
                        JObj true [("label", JStr label); ("duration", JNum (t1 - t0))])]))).
Proof.
  intros H0. unfold timeEnd, time. simpl. rewrite get_set_same.
  apply Z.eqb_neq in H0. rewrite H0. rewrite delete_set_same. reflexivity.
Qed.

End PerfFacts.

Module MemoryFacts.
Import MemorySink MemoryClaims.

Lemma mem_log_other m s e b : b <> logs m -> arrays (mem_log m s e) b = arrays s b.
Proof.
  intros Hb. unfold mem_log.
  destruct (lvl (level e) <? lvl (mem_level m))%Z; [reflexivity|].
  apply Nat.eqb_neq in Hb.
  destruct (mem_maxSize m <? _)%Z; unfold set_array; simpl; rewrite Hb; reflexivity.
Qed.

Lemma fold_other m es : forall s b,
  b <> logs m -> arrays (fold_left (mem_log m) es s) b = arrays s b.
Proof.
  induction es as [|e es IH]; intros s b Hb; simpl; [reflexivity|].
  rewrite IH by exact Hb. apply mem_log_other. exact Hb.
Qed.

Lemma fold_nonpositive m es : forall s,
  (mem_maxSize m <= 0)%Z -> retained m s = [] -> retained m (fold_left (mem_log m) es s) = [].
Proof.
  induction es as [|e es IH]; intros s Hm Hr; simpl; [exact Hr|].
  apply IH; [exact Hm|]. unfold mem_log.
  destruct (lvl (level e) <? lvl (mem_level m))%Z; [exact Hr|].
  unfold retained in Hr |- *. rewrite Hr. simpl.
  replace (mem_maxSize m <? 1)%Z with true by (symmetry; apply Z.ltb_lt; lia).
  unfold set_array. simpl. rewrite Nat.eqb_refl. reflexivity.
Qed.

Lemma clear_fold m s es :
  (0 <= mem_maxSize m)%Z ->
  let '(m', s1) := MemoryOps.clear m s in
  retained m' (fold_left (mem_log m') es s1)
  = lastn (Z.to_nat (mem_maxSize m)) (filter (accepted (mem_level m)) es).
Proof.
  intros Hm. unfold MemoryOps.clear, alloc. simpl.
  change (filter (accepted (mem_level m)) es) with ([] ++ filter (accepted (mem_level m)) es).
  apply (fold_retained (mkMemory (mem_level m) (next_id s) (mem_maxSize m))).
  - simpl. lia.
  - unfold retained. simpl. rewrite Nat.eqb_refl. reflexivity.
Qed.

End MemoryFacts.

Module HttpFacts.
Import HttpSink HttpOps HttpClaims Views.

Lemma flush_pending h st : Permutation (pending (flush h st)) (pending st).
Proof.
  unfold flush, pending. destruct (buffer st) as [|x xs] eqn:B; [rewrite B; reflexivity|].
  destruct (body h (x :: xs)); simpl.
  - rewrite concat_app. simpl. rewrite app_nil_r. apply Permutation_app_comm.
  - rewrite app_nil_r. reflexivity.
Qed.

Lemma flush_cases h st :
  flush h st = st \/
  (flush h st = mkHttp [] (inflight st ++ [buffer st]) (transmissions st ++ [buffer st]) /\
   buffer st <> []) \/
  (flush h st = mkHttp (buffer st) (inflight st) (transmissions st)).
Proof.
  unfold flush. destruct (buffer st) as [|x xs] eqn:B; [left; reflexivity|].
  destruct (body h (x :: xs)); right; [left; split; [reflexivity | discriminate]|right].
  rewrite app_nil_r. reflexivity.
Qed.

Lemma flush_no_empty h st : no_empty_batch st -> no_empty_batch (flush h st).
Proof.
  intros [Hi Ht]. destruct (flush_cases h st) as [-> | [[-> Hb] | ->]].
  - split; assumption.
  - split; simpl; apply Forall_app; split; auto.
  - split; assumption.
Qed.

Lemma remove_nth_Forall {A : Type} (P : A -> Prop) j l :
  Forall P l -> Forall P (remove_nth j l).
Proof.
  revert j. induction l as [|x l IH]; intros j H; [destruct j; constructor|].
  inversion H; subst. destruct j; simpl; [assumption | constructor; auto].
Qed.

(** [concat] of the batches of a list in which one batch throws. *)
Lemma items_throw h es x ex :
  In x es -> stringify_literal h (payload_item x) = Throw ex ->
  exists ex', items h es = Throw ex'.
Proof.
  induction es as [|y es IH]; intros Hin Hx; [destruct Hin|].
  simpl. destruct Hin as [-> | Hin].
  - rewrite Hx. eauto.
  - destruct (stringify_literal h (payload_item y)); [|eauto].
    destruct (IH Hin Hx) as [ex' ->]. eauto.
Qed.

Lemma body_throw h es x ex :
  In x es -> stringify_literal h (payload_item x) = Throw ex ->
  exists ex', body h es = Throw ex'.
Proof.
  intros Hin Hx. unfold body. destruct (items_throw h es x ex Hin Hx) as [ex' ->]. eauto.
Qed.

Lemma flush_blocked h st x ex :
  In x (buffer st) -> stringify_literal h (payload_item x) = Throw ex ->
  flush h st = mkHttp (buffer st) (inflight st) (transmissions st).
Proof.
  intros Hin Hx. unfold flush.
  destruct (buffer st) as [|y ys] eqn:B; [destruct Hin|].
  destruct (body_throw h (y :: ys) x ex Hin Hx) as [ex' ->]. rewrite app_nil_r. reflexivity.
Qed.

End HttpFacts.

Module RotateFacts.
Import FileSink FileClaims.
Local Open Scope string_scope.

Lemma to_int_not_nil z :
  Z.to_int z <> Decimal.Pos Decimal.Nil /\ Z.to_int z <> Decimal.Neg Decimal.Nil.
Proof.
  split; intros E; pose proof (DecimalZ.of_to z) as F; rewrite E in F; simpl in F;
    subst z; vm_compute in E; discriminate E.
Qed.

Lemma number_text_inj a b : number_text a = number_text b -> a = b.
Proof.
  intros H. unfold number_text in H.
  destruct (to_int_not_nil a) as [A1 A2]. destruct (to_int_not_nil b) as [B1 B2].
  pose proof (NilZero.isi _ A1 A2) as Ia. pose proof (NilZero.isi _ B1 B2) as Ib.
  rewrite H, Ib in Ia. injection Ia as E.
  rewrite <- (DecimalZ.of_to a), <- (DecimalZ.of_to b), E. reflexivity.
Qed.

Lemma append_cancel (p a b : string) : p ++ a = p ++ b -> a = b.
Proof.
  induction p as [|x p IH]; simpl; [auto|]. intros H. injection H as H. exact (IH H).
Qed.

Lemma rotated_inj c i j : rotated c i = rotated c j -> i = j.
Proof.
  unfold rotated. intros H. apply append_cancel in H. injection H as H.
  exact (number_text_inj _ _ H).
Qed.

Lemma rotated_eqb c i j : String.eqb (rotated c i) (rotated c j) = Z.eqb i j.
Proof.
  destruct (Z.eqb_spec i j) as [->|Hne]; [apply String.eqb_refl|].
  apply String.eqb_neq. intros H. exact (Hne (rotated_inj c i j H)).
Qed.

Lemma step_spec c i fs n :
  rotate_step c i fs n =
  if String.eqb n (rotated c i) then None
  else if String.eqb n (rotated c (i + 1)) then
    (if Z.eqb i (maxFiles c - 1) then fs n
     else match fs (rotated c i) with Some v => Some v | None => fs n end)
  else fs n.
Proof.
  unfold rotate_step.
  destruct (String.eqb_spec n (rotated c i)) as [->|N1].
  - destruct (fs (rotated c i)) eqn:F; [|exact F].
    destruct (Z.eqb i (maxFiles c - 1)); unfold fs_unlink, fs_rename.
    + rewrite String.eqb_refl. reflexivity.
    + rewrite rotated_eqb. replace (Z.eqb i (i + 1)) with false by (symmetry; apply Z.eqb_neq; lia).
      rewrite String.eqb_refl. reflexivity.
  - apply String.eqb_neq in N1 as N1'.
    destruct (String.eqb_spec n (rotated c (i + 1))) as [->|N2].
    + destruct (fs (rotated c i)) eqn:F; destruct (Z.eqb i (maxFiles c - 1));
        unfold fs_unlink, fs_rename; try rewrite N1'; try reflexivity.
      rewrite String.eqb_refl. exact F.
    + apply String.eqb_neq in N2.
      destruct (fs (rotated c i)); [|reflexivity].
      destruct (Z.eqb i (maxFiles c - 1)); unfold fs_unlink, fs_rename;
        rewrite ?N1', ?N2; reflexivity.
Qed.

Lemma step_at c i fs : rotate_step c i fs (rotated c i) = None.
Proof. rewrite step_spec, String.eqb_refl. reflexivity. Qed.

Lemma step_next c i fs :
  rotate_step c i fs (rotated c (i + 1)) =
  if Z.eqb i (maxFiles c - 1) then fs (rotated c (i + 1))
  else match fs (rotated c i) with Some v => Some v | None => fs (rotated c (i + 1)) end.
Proof.
  rewrite step_spec, rotated_eqb, String.eqb_refl.
  replace (Z.eqb (i + 1) i) with false by (symmetry; apply Z.eqb_neq; lia). reflexivity.
Qed.

Lemma step_other c i fs n :
  n <> rotated c i -> n <> rotated c (i + 1) -> rotate_step c i fs n = fs n.
Proof.
  intros H1 H2. rewrite step_spec.
  apply String.eqb_neq in H1, H2. rewrite H1, H2. reflexivity.
Qed.

(** What [rotate_loop c k] does, for [k <= maxFiles - 1]. *)
Lemma loop_spec c k : forall g,
  (Z.of_nat k <= maxFiles c - 1)%Z ->
  (forall j, (2 <= j <= Z.of_nat k)%Z -> rotate_loop c k g (rotated c j) = g (rotated c (j - 1))) /\
  ((1 <= Z.of_nat k)%Z -> rotate_loop c k g (rotated c 1) = None) /\
  ((1 <= Z.of_nat k)%Z ->
   rotate_loop c k g (rotated c (Z.of_nat k + 1)) =
   if Z.eqb (Z.of_nat k) (maxFiles c - 1) then g (rotated c (Z.of_nat k + 1))
   else match g (rotated c (Z.of_nat k)) with
        | Some v => Some v | None => g (rotated c (Z.of_nat k + 1)) end) /\
  (forall n, (forall j, (1 <= j <= Z.of_nat k + 1)%Z -> n <> rotated c j) ->
   rotate_loop c k g n = g n).
Proof.
  induction k as [|k IH]; intros g Hk.
  - simpl. repeat split; intros; try lia; reflexivity.
  - cbn [rotate_loop]. set (K := Z.of_nat k) in *.
    replace (Z.of_nat (S k)) with (K + 1)%Z in * by (subst K; lia).
    set (g' := rotate_step c (K + 1) g).
    destruct (IH g' ltac:(lia)) as [Ia [Ib [Ic Id]]].
    (* facts about g' *)
    assert (G1 : g' (rotated c (K + 1)) = None) by apply step_at.
    assert (G2 : forall j, j <> (K + 1)%Z -> j <> (K + 2)%Z -> g' (rotated c j) = g (rotated c j)).
    { intros j H1 H2. apply step_other; intros E; apply rotated_inj in E; lia. }
    assert (Hk0 : k = 0 \/ (1 <= K)%Z) by (subst K; lia).
    split; [|split; [|split]].
    + intros j Hj.
      destruct (Z.eq_dec j (K + 1)) as [->|Hne].
      * destruct Hk0 as [->|Hk1]; [simpl in Hj; lia|].
        rewrite (Ic Hk1). replace (Z.eqb K (maxFiles c - 1)) with false
          by (symmetry; apply Z.eqb_neq; lia).
        rewrite G1, G2 by lia. replace (K + 1 - 1)%Z with K by lia.
        destruct (g (rotated c K)); reflexivity.
      * rewrite Ia by lia. apply G2; lia.
    + intros _. destruct Hk0 as [->|Hk1].
      * simpl. exact G1.
      * exact (Ib Hk1).
    + intros _. replace (K + 1 + 1)%Z with (K + 2)%Z by lia.
      rewrite Id.
      * unfold g'. replace (K + 2)%Z with (K + 1 + 1)%Z by lia. apply step_next.
      * intros j Hj E. apply rotated_inj in E. lia.
    + intros n Hn. rewrite Id.
      * apply step_other; apply Hn; lia.
      * intros j Hj. apply Hn. lia.
Qed.


(** X14: With maxFiles N of at least 2, rotate() moves the active file to <file>.1 and each <file>.j to <file>.(j+1) for j up to N-2, drops the old <file>.(N-1), and leaves the active file absent and every other file, <file>.N included, unchanged. *)
Theorem rotate_shifts_backups c fs :
  (2 <= maxFiles c)%Z ->
  let fs' := snd (rotate c fs) in
  fs' (filename c) = None /\
  fs' (rotated c 1) = fs (filename c) /\
  (forall j, (2 <= j <= maxFiles c - 1)%Z -> fs' (rotated c j) = fs (rotated c (j - 1))) /\
  (forall n, n <> filename c -> (forall j, (1 <= j <= maxFiles c - 1)%Z -> n <> rotated c j) ->
   fs' n = fs n).
Proof.
  intros HN fs'. subst fs'. unfold rotate. simpl.
  set (k := Z.to_nat (maxFiles c - 1)).
  assert (Hk : Z.of_nat k = (maxFiles c - 1)%Z) by (subst k; lia).
  set (fs1 := rotate_loop c k fs).
  destruct (loop_spec c k fs ltac:(lia)) as [La [Lb [Lc Ld]]].
  fold fs1 in La, Lb, Lc, Ld.
  assert (A : fs1 (filename c) = fs (filename c)) by apply rotate_loop_active.
  assert (Ne : forall j, rotated c j <> filename c) by apply rotated_ne.
  destruct (fs1 (filename c)) as [v|] eqn:F; unfold fs_rename.
  - repeat split.
    + rewrite String.eqb_refl. destruct (String.eqb_spec (filename c) (rotated c 1)) as [E|_].
      * exfalso. exact (Ne 1%Z (eq_sym E)).
      * reflexivity.
    + rewrite String.eqb_refl, F. exact A.
    + intros j Hj. rewrite rotated_eqb. replace (Z.eqb j 1) with false
        by (symmetry; apply Z.eqb_neq; lia).
      destruct (String.eqb_spec (rotated c j) (filename c)) as [E|_]; [exfalso; exact (Ne j E)|].
      apply La. lia.
    + intros n Hf Hn. destruct (String.eqb_spec n (rotated c 1)) as [E|_];
        [exfalso; apply (Hn 1%Z); [lia | exact E]|].
      apply String.eqb_neq in Hf. rewrite Hf.
      destruct (String.eqb_spec n (rotated c (maxFiles c))) as [->|Hm].
      * replace (maxFiles c) with (Z.of_nat k + 1)%Z at 1 by lia.
        rewrite (Lc ltac:(lia)), Hk, Z.eqb_refl. f_equal. f_equal. lia.
      * apply Ld. intros j Hj E. subst n.
        destruct (Z.eq_dec j (maxFiles c)) as [->|Hj']; [exact (Hm eq_refl)|].
        apply (Hn j); [lia | reflexivity].
  - rewrite <- A. repeat split.
    + exact F.
    + apply Lb. lia.
    + intros j Hj. apply La. lia.
    + intros n Hf Hn.
      destruct (String.eqb_spec n (rotated c (maxFiles c))) as [->|Hm].
      * replace (maxFiles c) with (Z.of_nat k + 1)%Z at 1 by lia.
        rewrite (Lc ltac:(lia)), Hk, Z.eqb_refl. f_equal. f_equal. lia.
      * apply Ld. intros j Hj E. subst n.
        destruct (Z.eq_dec j (maxFiles c)) as [->|Hj']; [exact (Hm eq_refl)|].
        apply (Hn j); [lia | reflexivity].
Qed.

(** X15: With maxFiles at most 1, rotate() only renames the active file to <file>.1, replacing any previous <file>.1, and does nothing when there is no active file. *)
Theorem rotate_single_backup c fs :
  (maxFiles c <= 1)%Z ->
  let fs' := snd (rotate c fs) in
  (forall v, fs (filename c) = Some v ->
     fs' (filename c) = None /\ fs' (rotated c 1) = Some v /\
     forall n, n <> filename c -> n <> rotated c 1 -> fs' n = fs n) /\
  (fs (filename c) = None -> forall n, fs' n = fs n).
Proof.
  intros HN fs'. subst fs'. unfold rotate. simpl.
  replace (Z.to_nat (maxFiles c - 1)) with 0%nat by lia. simpl. split.
  - intros v Hv. rewrite Hv. unfold fs_rename. repeat split.
    + rewrite String.eqb_refl. destruct (String.eqb_spec (filename c) (rotated c 1)) as [E|_];
        [exfalso; exact (rotated_ne c 1 (eq_sym E)) | reflexivity].
    + rewrite String.eqb_refl. exact Hv.
    + intros n H1 H2. apply String.eqb_neq in H1, H2. rewrite H1, H2. reflexivity.
  - intros Hv n. rewrite Hv. reflexivity.
Qed.

End RotateFacts.

Module OneLineFacts.
Import FileOps Views.
Local Open Scope string_scope.

Lemma no_newline_app a b : no_newline (a ++ b) = no_newline a && no_newline b.
Proof.
  induction a as [|x a IH]; simpl; [reflexivity|]. rewrite IH. apply andb_assoc.
Qed.

Ltac nl_simpl := repeat (rewrite no_newline_app || rewrite andb_true_r || rewrite andb_true_l).

Lemma hex_one_line d : d < 16 -> no_newline (hex_digit d) = true.
Proof. intros H. do 16 (destruct d as [|d]; [reflexivity|]). lia. Qed.

Lemma escape_one_line s : no_newline (escape s) = true.
Proof.
  induction s as [|x s IH]; cbn [escape]; [reflexivity|].
  remember (nat_of_ascii x) as n eqn:Hn.
  destruct (Nat.eqb n 34); [simpl; exact IH|].
  destruct (Nat.eqb n 92); [simpl; exact IH|].
  destruct (Nat.eqb n 8); [simpl; exact IH|].
  destruct (Nat.eqb n 9); [simpl; exact IH|].
  destruct (Nat.eqb n 10) eqn:E; [simpl; exact IH|].
  destruct (Nat.eqb n 12); [simpl; exact IH|].
  destruct (Nat.eqb n 13); [simpl; exact IH|].
  destruct (Nat.ltb n 32) eqn:L.
  - apply Nat.ltb_lt in L.
    assert (A : n / 16 < 16) by (apply Nat.Div0.div_lt_upper_bound; lia).
    assert (B : n mod 16 < 16) by (apply Nat.mod_upper_bound; lia).
    revert A B. generalize (n / 16) (n mod 16). intros a b A B.
    nl_simpl. rewrite !hex_one_line by assumption. rewrite IH. reflexivity.
  - simpl. rewrite <- Hn, E, IH. reflexivity.
Qed.

Lemma quote_one_line s : no_newline (quote s) = true.
Proof. unfold quote. nl_simpl. rewrite escape_one_line. reflexivity. Qed.

Lemma uint_one_line d : no_newline (NilEmpty.string_of_uint d) = true.
Proof. induction d; simpl; first [reflexivity | exact IHd]. Qed.

Lemma number_one_line z : no_newline (number_text z) = true.
Proof.
  unfold number_text, NilZero.string_of_int, NilZero.string_of_uint.
  destruct (Z.to_int z) as [d|d]; destruct d; simpl; try reflexivity;
    apply uint_one_line.
Qed.

Lemma join_one_line sep xs :
  no_newline sep = true -> Forall (fun x => no_newline x = true) xs -> no_newline (join sep xs) = true.
Proof.
  intros Hs. induction 1 as [|x xs Hx Hxs IH]; [reflexivity|].
  destruct xs as [|y ys]; [exact Hx|].
  change (join sep (x :: y :: ys)) with (x ++ sep ++ join sep (y :: ys)).
  nl_simpl. rewrite Hx, Hs, IH. reflexivity.
Qed.

Lemma members_one_line {X : Type} (f : X -> outcome (option string)) ps rs :
  (forall k x, In (k, x) ps -> text_one_line (f x)) ->
  members f ps = Ok rs -> Forall (fun r => no_newline r = true) rs.
Proof.
  revert rs. induction ps as [|[k x] ps IH]; intros rs Hf H; cbn [members] in H.
  - injection H as <-. constructor.
  - pose proof (Hf k x (or_introl eq_refl)) as Hx.
    destruct (f x) as [[t|]|e]; [| |discriminate];
      destruct (members f ps) as [rs'|e]; try discriminate;
      injection H as <-;
      (assert (Hr : Forall (fun r => no_newline r = true) rs')
        by (apply IH; [intros k' x' Hin; exact (Hf k' x' (or_intror Hin)) | reflexivity])).
    + constructor; [|exact Hr]. simpl in Hx. change (no_newline (quote k ++ ":" ++ t) = true).
      nl_simpl. rewrite quote_one_line, Hx. reflexivity.
    + exact Hr.
Qed.

Lemma object_one_line rs :
  Forall (fun r => no_newline r = true) rs -> no_newline (object_text rs) = true.
Proof.
  intros H. unfold object_text. nl_simpl. rewrite join_one_line; auto.
Qed.

Lemma stringify_val_one_line fuel : forall h stack v, text_one_line (stringify_val fuel h stack v).
Proof.
  induction fuel as [|fuel IH]; intros h stack v;
    destruct v as [| |[]|z|z|s|a| |]; simpl; try exact I; try reflexivity;
    try apply number_one_line; try apply quote_one_line;
    destruct (existsb (Nat.eqb a) stack); try exact I.
  destruct (members (stringify_val fuel h (a :: stack)) _) as [rs|e] eqn:M; [|exact I].
  simpl. apply object_one_line. eapply members_one_line; [|exact M].
  intros k x _. apply IH.
Qed.

Lemma stringify_literal_one_line h ps s :
  stringify_literal h ps = Ok s -> no_newline s = true.
Proof.
  unfold stringify_literal. destruct (members (stringify_field h) ps) as [rs|e] eqn:M;
    [|discriminate]. intros [= <-]. apply object_one_line.
  eapply members_one_line; [|exact M]. intros k f _.
  destruct f as [v|qs]; simpl; [apply stringify_val_one_line|].
  destruct (members (stringify h) qs) as [rs'|e] eqn:M'; [|exact I].
  simpl. apply object_one_line. eapply members_one_line; [|exact M'].
  intros k' x _. apply stringify_val_one_line.
Qed.

End OneLineFacts.

Module FileSeqFacts.
Import FileSink FileOps FileClaims Views.
Local Open Scope string_scope.

Lemma total_units_nonneg ls : (0 <= total_units ls)%Z.
Proof. induction ls; simpl; [lia|]. pose proof (utf16_length_nonneg a). lia. Qed.

Lemma str_app_nil_r (a : string) : a ++ "" = a.
Proof. induction a as [|x a IH]; simpl; [reflexivity | rewrite IH; reflexivity]. Qed.

Lemma str_app_assoc (a b d : string) : a ++ (b ++ d) = (a ++ b) ++ d.
Proof. induction a as [|x a IH]; simpl; [reflexivity | rewrite IH; reflexivity]. Qed.

Lemma settles_seq_det c h es : forall w w1 w2,
  settles_seq c h es w w1 -> settles_seq c h es w w2 -> w1 = w2.
Proof.
  induction es as [|e es IH]; intros w w1 w2 H1 H2;
    inversion H1 as [?|? ? ? x1 ? S1 R1]; inversion H2 as [?|? ? ? x2 ? S2 R2]; subst; [reflexivity|].
  rewrite (settles_det _ _ _ _ S1 S2) in R1. exact (IH _ _ _ R1 R2).
Qed.

Lemma seq_appends c h es : forall w ls,
  pending w = [] ->
  Forall (fun e => (lvl (file_level c) <= lvl (level e))%Z) es ->
  lines c h es = Ok ls ->
  (currentSize (state w) + total_units ls <= maxSize c)%Z ->
  exists fs', settles_seq c h es w
      (mkWorld (mkFileState (currentSize (state w) + total_units ls)) fs' [] (reports w)) /\
    (forall n, n <> filename c -> fs' n = files w n) /\
    (ls = [] -> fs' (filename c) = files w (filename c)) /\
    (ls <> [] -> fs' (filename c) = Some (content (files w) (filename c) ++ concat_all ls)).
Proof.
  induction es as [|e es IH]; intros w ls P Hl Hls Hs.
  - simpl in Hls. injection Hls as <-. exists (files w). simpl.
    rewrite Z.add_0_r. destruct w as [[cs] fs ps rs]; simpl in P |- *; subst ps.
    refine (conj (seq_nil _ _ _) (conj (fun _ _ => eq_refl) (conj (fun _ => eq_refl) _))).
    intros H; exfalso; apply H; reflexivity.
  - inversion Hl as [|? ? He Hes]; subst. simpl in Hls.
    destruct (format c h e) as [s|ex] eqn:F; [|discriminate].
    destruct (lines c h es) as [ls'|ex] eqn:L; [|discriminate].
    injection Hls as <-. simpl in Hs.
    pose proof (total_units_nonneg ls') as Hnn.
    pose proof (call_settles_plain c h w e s P He F ltac:(lia)) as S1.
    set (w1 := mkWorld (mkFileState (currentSize (state w) + utf16_length (s ++ Formatters.nl)))
                 (fs_append (files w) (filename c) (s ++ Formatters.nl)) [] (reports w)) in S1.
    destruct (IH w1 ls' eq_refl Hes eq_refl ltac:(simpl; lia)) as [fs' [R [O [E1 E2]]]].
    exists fs'. split; [|split; [|split]].
    + eapply seq_cons; [exact S1|]. cbn [total_units].
      replace (currentSize (state w) + (utf16_length (s ++ Formatters.nl) + total_units ls'))%Z
        with (currentSize (state w) + utf16_length (s ++ Formatters.nl) + total_units ls')%Z
        by lia.
      exact R.
    + intros n Hn. rewrite O by exact Hn. simpl. apply fs_append_other. exact Hn.
    + discriminate.
    + intros _. simpl in E1, E2. destruct ls' as [|l ls''].
      * rewrite E1 by reflexivity. rewrite fs_append_active. unfold content.
        simpl. rewrite str_app_nil_r. reflexivity.
      * rewrite E2 by discriminate. unfold content at 1. rewrite fs_append_active.
        simpl. unfold content. rewrite !str_app_assoc. reflexivity.
Qed.

End FileSeqFacts.

Module Logger2Facts.
Import Pipeline Logger2.

Lemma deliver_any_delivered i t e : In (Delivered i (name t) e) (fst (deliver_any i t e)).
Proof. unfold deliver_any. destruct (transport_log t e) as [| |[]]; simpl; auto. Qed.

Lemma fan_all_delivered ts : forall j i t e,
  nth_error ts i = Some t -> In (Delivered (j + i) (name t) e) (fst (fan_all j ts e)).
Proof.
  induction ts as [|t0 ts IH]; intros j i t e H; [destruct i; discriminate|].
  simpl. destruct (deliver_any j t0 e) as [now1 later1] eqn:D.
  destruct (fan_all (S j) ts e) as [now2 later2] eqn:R. simpl.
  apply in_or_app. destruct i as [|i]; simpl in H.
  - injection H as <-. left. rewrite Nat.add_0_r.
    pose proof (deliver_any_delivered j t0 e) as X. rewrite D in X. exact X.
  - right. replace (j + S i) with (S j + i) by lia.
    pose proof (IH (S j) i t e H) as X. rewrite R in X. exact X.
Qed.

End Logger2Facts.

Module CloseFacts.
Import Pipeline Closing Views.

Lemma close_one_idx i t ev : In ev (events (close_one i t)) -> cidx ev = i.
Proof.
  unfold close_one, events. destruct (cclose t) as [[| |[]]|]; simpl;
    intros H; repeat destruct H as [<-|H]; try reflexivity; destruct H.
Qed.

Lemma close_all_cons j t ts ev :
  In ev (events (close_all j (t :: ts))) <->
  In ev (events (close_one j t)) \/ In ev (events (close_all (S j) ts)).
Proof.
  unfold events. simpl.
  destruct (close_one j t) as [n1 l1]. destruct (close_all (S j) ts) as [n2 l2].
  simpl. rewrite !in_app_iff. tauto.
Qed.

Lemma close_all_idx ts : forall j ev, In ev (events (close_all j ts)) -> j <= cidx ev.
Proof.
  induction ts as [|t ts IH]; intros j ev H; [destruct H|].
  apply close_all_cons in H as [H|H].
  - rewrite (close_one_idx j t ev H). lia.
  - specialize (IH (S j) ev H). lia.
Qed.

Lemma close_all_at ts : forall j i t ev,
  nth_error ts i = Some t -> cidx ev = j + i ->
  (In ev (events (close_all j ts)) <-> In ev (events (close_one (j + i) t))).
Proof.
  induction ts as [|t0 ts IH]; intros j i t ev H Hi; [destruct i; discriminate|].
  rewrite close_all_cons. destruct i as [|i]; simpl in H.
  - injection H as <-. rewrite Nat.add_0_r in *. split; [|tauto].
    intros [X|X]; [exact X|]. apply close_all_idx in X. lia.
  - replace (j + S i) with (S j + i) in * by lia. rewrite <- (IH (S j) i t ev H Hi).
    split; [|tauto]. intros [X|X]; [|exact X].
    apply close_one_idx in X. lia.
Qed.

End CloseFacts.

Module BuiltinFacts.
Import Pipeline Builtins.

Lemma nth_error_map_pass fs i :
  nth_error (map pass_through fs) i = option_map pass_through (nth_error fs i).
Proof. apply nth_error_map. Qed.

Lemma skipn_nth {A : Type} (l : list A) : forall i x,
  nth_error l i = Some x -> skipn i l = x :: skipn (S i) l.
Proof.
  induction l as [|y l IH]; intros i x H; [destruct i; discriminate|].
  destruct i as [|i]; simpl in H |- *; [injection H as <-; reflexivity|].
  exact (IH i x H).
Qed.

Lemma next_pass fs ts k : forall i e T D fuel,
  i + k = List.length fs -> k <= fuel ->
  next fuel (map pass_through fs) ts (mkRun i e T D) =
  Normal (mkRun (List.length fs) (apply_all (skipn i fs) e)
            (T ++ invocations i (skipn i fs) e ++ fst (writeToTransports ts (apply_all (skipn i fs) e)))
            (D ++ snd (writeToTransports ts (apply_all (skipn i fs) e)))).
Proof.
  induction k as [|k IH]; intros i e T D fuel Hi Hf.
  - rewrite Nat.add_0_r in Hi. subst i.
    destruct fuel; simpl; rewrite nth_error_map_pass;
      rewrite (proj2 (nth_error_None fs (List.length fs)) (le_n _)); simpl;
      rewrite skipn_all; simpl;
      unfold dispatch; simpl; destruct (writeToTransports ts e); reflexivity.
  - destruct fuel as [|fuel]; [lia|].
    assert (Hlt : i < List.length fs) by lia.
    destruct (nth_error fs i) as [f|] eqn:F;
      [|apply nth_error_None in F; lia].
    simpl. rewrite nth_error_map_pass, F. simpl.
    rewrite (IH (S i) (f e) (T ++ [Invoked i e]) D fuel ltac:(lia) ltac:(lia)).
    rewrite (skipn_nth fs i f F). simpl.
    rewrite <- app_assoc. reflexivity.
Qed.

End BuiltinFacts.

Module SpreadFacts.
Import JsMap JsMapFacts.

Lemma get_notin {V : Type} (m : list (string * V)) k : ~ In k (keys m) -> get m k = None.
Proof.
  unfold keys. induction m as [|[k' v] r IH]; simpl; intros H; [reflexivity|].
  destruct (String.eqb_spec k k') as [->|_]; [exfalso; auto|]. apply IH. auto.
Qed.

Lemma get_assign (ps : list (string * jv)) : forall acc k,
  NoDup (keys ps) ->
  get (Spread.assign acc ps) k = match get ps k with Some v => Some v | None => get acc k end.
Proof.
  induction ps as [|[k' v] r IH]; intros acc k Hnd; [reflexivity|].
  inversion Hnd as [|? ? Hk Hr]; subst. unfold Spread.assign. simpl.
  fold (Spread.assign (set acc k' v) r). rewrite (IH _ _ Hr).
  destruct (String.eqb_spec k k') as [->|Hne].
  - rewrite get_notin by exact Hk. apply get_set_same.
  - destruct (get r k); [reflexivity|]. apply get_set_other. exact Hne.
Qed.

End SpreadFacts.

Module FactoryFacts.
Import Factory JsMap JsMapFacts SpreadFacts.
Local Open Scope string_scope.

Lemma logger_at_create f name cfg :
  logger_at (snd (create f name cfg)) (fst (create f name cfg))
  = Some (construct (merge (defaultConfig f) cfg name)).
Proof.
  unfold logger_at, create. simpl. rewrite nth_error_app2 by lia.
  rewrite Nat.sub_diag. reflexivity.
Qed.

Lemma in_set_nodup {V : Type} (m : list (string * V)) n w k v :
  NoDup (keys m) -> In (k, v) (set m n w) -> (k = n /\ v = w) \/ (k <> n /\ In (k, v) m).
Proof.
  unfold keys. induction m as [|[k' v'] r IH]; simpl; intros Hnd H.
  - destruct H as [[= <- <-]|[]]. left. auto.
  - inversion Hnd as [|? ? Hk Hr]; subst.
    destruct (String.eqb_spec n k') as [->|Hne]; simpl in H.
    + destruct H as [[= <- <-]|H]; [left; auto|].
      right. split; [|right; exact H]. intros ->. apply Hk. apply (in_map fst r (k', v) H).
    + destruct H as [[= <- <-]|H].
      * right. split; [intros ->; exact (Hne eq_refl)|left; reflexivity].
      * destruct (IH Hr H) as [X|[X Y]]; [left; exact X|right; split; [exact X|right; exact Y]].
Qed.

Lemma keys_set_nodup {V : Type} (m : list (string * V)) n w :
  NoDup (keys m) -> NoDup (keys (set m n w)).
Proof.
  unfold keys. induction m as [|[k' v'] r IH]; simpl; intros Hnd.
  - constructor; [intros []|constructor].
  - inversion Hnd as [|? ? Hk Hr]; subst.
    destruct (String.eqb_spec n k') as [->|Hne]; simpl; constructor; auto.
    intros Hin. apply in_map_iff in Hin as [[k v] [Ek Hin]]. simpl in Ek. subst k.
    destruct (in_set_nodup r n w k' v Hr Hin) as [[E _]|[_ Y]].
    + exact (Hne (eq_sym E)).
    + apply Hk. exact (in_map fst r (k', v) Y).
Qed.

End FactoryFacts.

Module ConsoleFacts.
Import ConsoleFmt.
Local Open Scope string_scope.
End ConsoleFacts.

Module SanitizeProps.
Import Views SanitizeFacts.
Local Open Scope string_scope.

(** X1: The value sanitizeObject returns has, at every depth of nested objects and arrays, the text '[REDACTED]' under every key that contains one of the sensitive fields (compared in lower case), and no object in it has an own __proto__ property. *)
Theorem sanitizeObject_redacts fs v : redacted fs (sanitizeObject fs v).
Proof. apply sanitize_redacted. Qed.

(** X2: sanitizeObject turns any object, a class instance included, into a fresh object whose own keys are the original own keys in their original order, with only a '__proto__' key left out. That object is plain unless the input has a '__proto__' key whose value is not redacted and, once sanitized, is an object, an array, a function or null: the assignment sanitized['__proto__'] = ... then makes that sanitized value the prototype of the result. *)
Theorem sanitizeObject_keys fs b q ps :
  sanitizeObject fs (JProtoObj q ps) = sanitizeObject fs (JObj b ps) /\
  exists ps',
    map fst ps' = filter (fun k => negb (String.eqb k "__proto__")) (map fst ps) /\
    (sanitizeObject fs (JObj b ps) = JObj true ps' \/
     exists x, In ("__proto__", x) ps /\ sensitive fs "__proto__" = false /\
               proto_like (sanitizeObject fs x) = true /\
               sanitizeObject fs (JObj b ps) = JProtoObj (sanitizeObject fs x) ps') /\
    ((forall x, ~ In ("__proto__", x) ps) -> sanitizeObject fs (JObj b ps) = JObj true ps') /\
    (forall x, NoDup (map fst ps) -> In ("__proto__", x) ps -> sensitive fs "__proto__" = false ->
               proto_like (sanitizeObject fs x) = true ->
               sanitizeObject fs (JObj b ps) = JProtoObj (sanitizeObject fs x) ps').
Proof.
  split; [rewrite sanitize_proto, sanitize_obj; reflexivity|].
  exists (snd (sanitize_props fs ps)). split; [apply sanitize_props_keys|].
  rewrite sanitize_obj. split; [|split].
  - destruct (sanitize_props fs ps) as [[p|] qs] eqn:E; [right|left; reflexivity].
    assert (Ep : fst (sanitize_props fs ps) = Some p) by (rewrite E; reflexivity).
    destruct (sanitize_props_proto fs ps p Ep) as [x [Hx [S [Hp Pl]]]]. subst p.
    exists x. repeat split; assumption.
  - intros H. pose proof (sanitize_props_none fs ps H) as N.
    destruct (sanitize_props fs ps) as [pr qs]. simpl in N |- *. subst pr. reflexivity.
  - intros x Nd Hx S Pl. pose proof (sanitize_props_exact fs ps x Nd Hx S Pl) as N.
    destruct (sanitize_props fs ps) as [pr qs]. simpl in N |- *. subst pr. reflexivity.
Qed.

Lemma sanitizeObject_keys_witness :
  sanitizeObject [] (JObj true [("__proto__", JObj true [("a", JNum 1)])]) =
    JProtoObj (JObj true [("a", JNum 1)]) [] /\
  sanitizeObject ["password"] (JObj false [("id", JNum 7); ("password", JStr "x")]) =
    JObj true [("id", JNum 7); ("password", JStr redacted_text)] /\
  sanitizeObject_js [] function_blocks (JObj true [("__proto__", JFun 0); ("name", JStr "x")]) =
    Throw TypeError_readonly.
Proof.
  pose proof (sanitizeObject_keys [] true JNull [("__proto__", JObj true [("a", JNum 1)])])
    as [_ [ps' [K [_ [_ Ex]]]]].
  split.
  - assert (E : ps' = []) by (destruct ps' as [|? ?]; [reflexivity | discriminate K]).
    subst ps'. apply (Ex (JObj true [("a", JNum 1)])).
    + repeat constructor. intros [].
    + left; reflexivity.
    + reflexivity.
    + reflexivity.
  - split; vm_compute; reflexivity.
Defined.

(** X3: sanitizeObject is idempotent on values with no '__proto__' key in any of their objects: sanitizing the sanitized value with the same fields gives the same value again. A '__proto__' key can break this: the prototype it sets is not an own property, so a second pass drops it. *)
Theorem sanitizeObject_idempotent fs v :
  no_proto_key v = true ->
  sanitizeObject fs (sanitizeObject fs v) = sanitizeObject fs v.
Proof. apply sanitize_idem. Qed.

Lemma sanitizeObject_idempotent_witness :
  let v := JObj false [("user", JObj true [("token", JStr "t"); ("tags", JArr [JStr "a"])])] in
  no_proto_key v = true /\
  sanitizeObject ["token"] (sanitizeObject ["token"] v) = sanitizeObject ["token"] v /\
  sanitizeObject [] (sanitizeObject [] (JObj true [("__proto__", JObj true [("a", JNum 1)])])) <>
  sanitizeObject [] (JObj true [("__proto__", JObj true [("a", JNum 1)])]).
Proof.
  intros v. split; [reflexivity|]. split.
  - apply sanitizeObject_idempotent. reflexivity.
  - vm_compute. discriminate.
Defined.

(** X4: With an empty list of sensitive fields, sanitizeObject returns a value equal to its input when the input is plain data: plain objects without a __proto__ key, arrays and primitives. *)
Theorem sanitizeObject_no_fields v :
  plain_data v = true -> sanitizeObject [] v = v.
Proof. apply sanitize_nil_plain. Qed.

Lemma sanitizeObject_no_fields_witness :
  let v := JObj true [("password", JStr "hunter2"); ("items", JArr [JNum 1; JObj true [("token", JNull)]])] in
  plain_data v = true /\ sanitizeObject [] v = v.
Proof.
  intros v. split; [reflexivity|]. apply sanitizeObject_no_fields. reflexivity.
Defined.

End SanitizeProps.

Module PerfProps.
Import Perf JsMapFacts PerfFacts.
Local Open Scope string_scope.

(** X6: After time(label) at a non-zero time t0, timeEnd(label) at t1 removes the timer and logs at INFO '<label>: <t1-t0>ms' with context {performance: {label, duration: t1-t0}}; other timers and the profiles are unchanged. *)
Theorem time_timeEnd_round_trip st label t0 t1 :
  t0 <> 0%Z ->
  timeEnd (time st label t0) label t1 =
  (mkPerf (JsMap.delete (timers st) label) (profiles st),
   mkCall INFO (label ++ ": " ++ number_text (t1 - t0) ++ "ms")
     (Some (JObj true [("performance",
                        JObj true [("label", JStr label); ("duration", JNum (t1 - t0))])]))).
Proof. apply time_then_timeEnd. Qed.

Lemma time_timeEnd_round_trip_witness :
  timeEnd (time (mkPerf [] []) "db" 1000) "db" 1250 =
  (mkPerf [] [], mkCall INFO "db: 250ms"
     (Some (JObj true [("performance", JObj true [("label", JStr "db"); ("duration", JNum 250)])]))).
Proof. apply (time_timeEnd_round_trip (mkPerf [] []) "db" 1000 1250). lia. Defined.

(** X7: profile(label) at a non-zero time t0 logs 'Profile started: <label>' at DEBUG; a following profileEnd(label) at t1 removes the profile and logs 'Profile completed: <label>' at INFO with {profile: {label, duration: t1-t0, startTime: ISO text of t0, endTime}}, leaving the timers unchanged. *)
Theorem profile_profileEnd_round_trip st label t0 t1 iso end_iso :
  t0 <> 0%Z ->
  snd (profile st label t0) = mkCall DEBUG ("Profile started: " ++ label) None /\
  profileEnd (fst (profile st label t0)) label t1 iso end_iso =
  (mkPerf (timers st) (JsMap.delete (profiles st) label),
   mkCall INFO ("Profile completed: " ++ label)
     (Some (JObj true [("profile",
                        JObj true [("label", JStr label); ("duration", JNum (t1 - t0));
                                   ("startTime", JStr (iso t0)); ("endTime", JStr end_iso)])]))).
Proof.
  intros H. split; [reflexivity|]. unfold profileEnd, profile. simpl.
  rewrite get_set_same, delete_set_same.
  replace (Z.eqb t0 0) with false by (symmetry; apply Z.eqb_neq; exact H). reflexivity.
Qed.

Lemma profile_profileEnd_round_trip_witness :
  snd (profile (mkPerf [] []) "load" 5) = mkCall DEBUG "Profile started: load" None /\
  profileEnd (fst (profile (mkPerf [] []) "load" 5)) "load" 9 (fun _ => "T0") "T1" =
  (mkPerf [] [], mkCall INFO "Profile completed: load"
     (Some (JObj true [("profile", JObj true [("label", JStr "load"); ("duration", JNum 4);
                                              ("startTime", JStr "T0"); ("endTime", JStr "T1")])]))).
Proof. apply (profile_profileEnd_round_trip (mkPerf [] []) "load" 5 9 (fun _ => "T0") "T1"). lia. Defined.

(** X8: getStats().activeTimers lists the timer labels in the order they were first started: time(label) appends a new label at the end (a restarted label keeps its place), and a completed timeEnd(label) removes just that label. *)
Theorem getStats_active_timers l ts st label t0 t1 :
  t0 <> 0%Z ->
  (let '(lv, names, active, profs) := getStats l ts (time st label t0) in
   active = if existsb (String.eqb label) (JsMap.keys (timers st))
            then JsMap.keys (timers st) else (JsMap.keys (timers st) ++ [label])%list) /\
  (let '(lv, names, active, profs) := getStats l ts (fst (timeEnd (time st label t0) label t1)) in
   active = filter (fun k => negb (String.eqb k label)) (JsMap.keys (timers st))).
Proof.
  intros H. split.
  - simpl. apply keys_set.
  - rewrite (time_then_timeEnd st label t0 t1 H). simpl. apply keys_delete.
Qed.

Lemma getStats_active_timers_witness :
  (let '(lv, names, active, profs) := getStats INFO [] (time (mkPerf [("a", 3%Z)] []) "b" 7%Z) in
   active = ["a"; "b"]) /\
  (let '(lv, names, active, profs) := getStats INFO [] (fst (timeEnd (time (mkPerf [("a", 3%Z)] []) "b" 7%Z) "b" 9%Z)) in
   active = ["a"]).
Proof. exact (getStats_active_timers INFO [] (mkPerf [("a", 3%Z)] []) "b" 7%Z 9%Z ltac:(lia)). Defined.

End PerfProps.

Module MemoryProps.
Import MemorySink MemoryFacts.

(** X9: A MemoryTransport created with maxSize 0 or less keeps no entry: whatever is logged, getLogs returns an empty array. *)
Theorem memory_nonpositive_max_keeps_nothing l max s es :
  (max <= 0)%Z ->
  let '(m, s1) := create l max s in retained m (fold_left (mem_log m) es s1) = [].
Proof.
  intros H. unfold create, alloc. simpl. apply fold_nonpositive; simpl; [exact H|].
  unfold retained. simpl. rewrite Nat.eqb_refl. reflexivity.
Qed.

Lemma memory_nonpositive_max_keeps_nothing_witness :
  (0 <= 0)%Z /\
  let '(m, s1) := create INFO 0 (mkStore (fun _ => []) 0) in
  retained m (fold_left (mem_log m) [Samples.e0; Samples.e0] s1) = [].
Proof.
  split; [lia|]. apply (memory_nonpositive_max_keeps_nothing INFO 0 (mkStore (fun _ => []) 0)). lia.
Defined.

(** X10: After clear() (and close(), which calls it), the transport keeps only the last maxSize accepted entries logged since, for a non-negative maxSize; the old logs array and any array an earlier getLogs returned are never changed afterwards. *)
Theorem memory_clear_restarts m s es a :
  (0 <= mem_maxSize m)%Z -> a < next_id s ->
  let '(m', s1) := MemoryOps.clear m s in
  let s2 := fold_left (mem_log m') es s1 in
  retained m' s2 = lastn (Z.to_nat (mem_maxSize m)) (filter (accepted (mem_level m)) es) /\
  arrays s2 a = arrays s a.
Proof.
  intros Hm Ha. pose proof (clear_fold m s es Hm) as C.
  destruct (MemoryOps.clear m s) as [m' s1] eqn:E. split; [exact C|].
  unfold MemoryOps.clear, alloc in E. simpl in E. injection E as <- <-.
  rewrite fold_other by (simpl; lia). simpl.
  replace (Nat.eqb a (next_id s)) with false by (symmetry; apply Nat.eqb_neq; lia). reflexivity.
Qed.

Lemma memory_clear_restarts_witness :
  let m := mkMemory INFO 0 2 in
  let s := mkStore (fun b => if Nat.eqb b 0 then [Samples.e0] else []) 1 in
  ((0 <= mem_maxSize m)%Z /\ 0 < next_id s) /\
  let '(m', s1) := MemoryOps.clear m s in
  let s2 := fold_left (mem_log m') [Samples.e0; Samples.e0; Samples.e0] s1 in
  retained m' s2 = lastn 2 (filter (accepted INFO) [Samples.e0; Samples.e0; Samples.e0]) /\
  arrays s2 0 = arrays s 0.
Proof.
  intros m s. split; [simpl; split; lia|].
  apply (memory_clear_restarts m s [Samples.e0; Samples.e0; Samples.e0] 0); simpl; lia.
Defined.

End MemoryProps.

Module HttpProps.
Import HttpSink HttpOps HttpClaims HttpFacts Views.

(** X11: HttpTransport loses and duplicates no entry: the buffered entries plus those of unsettled requests are, up to order, the same after the timer tick and close(), and after log(entry) they gain exactly the entry when its level passes. *)
Theorem http_pending_conserved c h st e :
  Permutation (pending (http_log c h st e))
              (pending st ++ (if (lvl (http_level c) <=? lvl (level e))%Z then [e] else [])) /\
  Permutation (pending (tick h st)) (pending st) /\
  Permutation (pending (close h st)) (pending st).
Proof.
  split; [|split].
  - unfold http_log. destruct (lvl (level e) <? lvl (http_level c))%Z eqn:L.
    + apply Z.ltb_lt in L. replace (lvl (http_level c) <=? lvl (level e))%Z with false
        by (symmetry; apply Z.leb_gt; lia). rewrite app_nil_r. reflexivity.
    + apply Z.ltb_ge in L. replace (lvl (http_level c) <=? lvl (level e))%Z with true
        by (symmetry; apply Z.leb_le; lia).
      set (st1 := mkHttp (buffer st ++ [e]) (inflight st) (transmissions st)).
      assert (P1 : Permutation (pending st1) (pending st ++ [e])).
      { unfold pending, st1. simpl. rewrite <- !app_assoc. apply Permutation_app_head.
        apply Permutation_app_comm. }
      destruct (batchSize c <=? _)%Z; [|exact P1].
      eapply Permutation_trans; [apply flush_pending|exact P1].
  - unfold tick. destruct (buffer st) eqn:B; [reflexivity|apply flush_pending].
  - apply flush_pending.
Qed.

(** X12: HttpTransport never sends a request with an empty batch: log, the timer tick, the settling of a request and close() all keep every sent and unsettled batch non-empty. *)
Theorem http_no_empty_batch c h st e j ok :
  no_empty_batch st ->
  no_empty_batch (http_log c h st e) /\ no_empty_batch (tick h st) /\
  no_empty_batch (settle st j ok) /\ no_empty_batch (close h st).
Proof.
  intros H. split; [|split; [|split]].
  - unfold http_log. destruct (lvl (level e) <? lvl (http_level c))%Z; [exact H|].
    destruct (batchSize c <=? _)%Z; [apply flush_no_empty|]; exact H.
  - unfold tick. destruct (buffer st); [exact H|apply flush_no_empty; exact H].
  - unfold settle. destruct (nth_error (inflight st) j); [|exact H].
    destruct H as [Hi Ht].
    destruct ok; split; simpl; try exact Ht; apply remove_nth_Forall; exact Hi.
  - apply flush_no_empty. exact H.
Qed.

Lemma http_no_empty_batch_witness :
  no_empty_batch Samples.http_empty /\
  no_empty_batch (http_log Samples.http_cfg3 [] Samples.http_empty Samples.e0) /\
  no_empty_batch (tick [] Samples.http_empty) /\
  no_empty_batch (settle Samples.http_empty 0 true) /\ no_empty_batch (close [] Samples.http_empty).
Proof.
  assert (H : no_empty_batch Samples.http_empty) by (split; constructor).
  split; [exact H|]. exact (http_no_empty_batch Samples.http_cfg3 [] Samples.http_empty Samples.e0 0 true H).
Defined.

(** X13: Once the buffer holds an entry that JSON.stringify rejects (a circular context), that entry stays buffered and no further request is sent: log, the timer tick, the settling of a request and close() all leave it in the buffer and send nothing. *)
Theorem http_unserialisable_entry_blocks c h st e j ok x ex :
  In x (buffer st) -> stringify_literal h (payload_item x) = Throw ex ->
  (In x (buffer (http_log c h st e)) /\ transmissions (http_log c h st e) = transmissions st) /\
  (In x (buffer (tick h st)) /\ transmissions (tick h st) = transmissions st) /\
  (In x (buffer (settle st j ok)) /\ transmissions (settle st j ok) = transmissions st) /\
  (In x (buffer (close h st)) /\ transmissions (close h st) = transmissions st).
Proof.
  intros Hin Hx. split; [|split; [|split]].
  - unfold http_log. destruct (lvl (level e) <? lvl (http_level c))%Z; [split; auto|].
    set (st1 := mkHttp (buffer st ++ [e]) (inflight st) (transmissions st)).
    assert (H1 : In x (buffer st1)) by (simpl; apply in_or_app; left; exact Hin).
    destruct (batchSize c <=? _)%Z; [|split; auto].
    rewrite (flush_blocked h st1 x ex H1 Hx). split; auto.
  - unfold tick. destruct (buffer st) eqn:B; [destruct Hin|].
    rewrite (flush_blocked h st x ex ltac:(rewrite B; exact Hin) Hx). rewrite B. split; auto.
  - unfold settle. destruct (nth_error (inflight st) j); [|split; auto].
    destruct ok; simpl; split; auto. apply in_or_app. right. exact Hin.
  - unfold close. rewrite (flush_blocked h st x ex Hin Hx). split; auto.
Qed.

Lemma http_unserialisable_entry_blocks_witness :
  let st := mkHttp [Samples.e_cyc] [] [] in
  (In Samples.e_cyc (buffer st) /\
   stringify_literal Samples.h_cyc (payload_item Samples.e_cyc) = Throw TypeError_circular) /\
  (In Samples.e_cyc (buffer (http_log Samples.http_cfg3 Samples.h_cyc st Samples.e0)) /\
   transmissions (http_log Samples.http_cfg3 Samples.h_cyc st Samples.e0) = transmissions st) /\
  (In Samples.e_cyc (buffer (tick Samples.h_cyc st)) /\ transmissions (tick Samples.h_cyc st) = transmissions st) /\
  (In Samples.e_cyc (buffer (settle st 0 true)) /\ transmissions (settle st 0 true) = transmissions st) /\
  (In Samples.e_cyc (buffer (close Samples.h_cyc st)) /\ transmissions (close Samples.h_cyc st) = transmissions st).
Proof.
  intros st.
  assert (H1 : In Samples.e_cyc (buffer st)) by (left; reflexivity).
  assert (H2 : stringify_literal Samples.h_cyc (payload_item Samples.e_cyc) = Throw TypeError_circular)
    by (vm_compute; reflexivity).
  split; [split; assumption|].
  exact (http_unserialisable_entry_blocks Samples.http_cfg3 Samples.h_cyc st Samples.e0 0 true
           Samples.e_cyc TypeError_circular H1 H2).
Defined.

End HttpProps.

Module FileProps.
Import FileSink FileOps FileClaims RotateFacts OneLineFacts FileSeqFacts Views.
Local Open Scope string_scope.

Lemma rotate_shifts_backups_witness :
  let c := mkFileConfig INFO "app.log" 100 3 false in
  let fs := fun n => if String.eqb n "app.log" then Some "new"
                     else if String.eqb n "app.log.1" then Some "old" else None in
  (2 <= maxFiles c)%Z /\
  (let fs' := snd (rotate c fs) in
   fs' (filename c) = None /\
   fs' (rotated c 1) = fs (filename c) /\
   (forall j, (2 <= j <= maxFiles c - 1)%Z -> fs' (rotated c j) = fs (rotated c (j - 1))) /\
   (forall n, n <> filename c -> (forall j, (1 <= j <= maxFiles c - 1)%Z -> n <> rotated c j) ->
    fs' n = fs n)).
Proof.
  intros c fs. split; [simpl; lia|]. apply rotate_shifts_backups. simpl. lia.
Defined.

Lemma rotate_single_backup_witness :
  let c := mkFileConfig INFO "app.log" 100 1 false in
  let fs := fun n => if String.eqb n "app.log" then Some "new" else None in
  (maxFiles c <= 1)%Z /\
  (let fs' := snd (rotate c fs) in
   (forall v, fs (filename c) = Some v ->
      fs' (filename c) = None /\ fs' (rotated c 1) = Some v /\
      forall n, n <> filename c -> n <> rotated c 1 -> fs' n = fs n) /\
   (fs (filename c) = None -> forall n, fs' n = fs n)).
Proof.
  intros c fs. split; [simpl; lia|]. apply rotate_single_backup. simpl. lia.
Defined.

(** X16: A new FileTransport whose log calls are awaited one after another, every file operation succeeding, given entries at or above its level, appends their lines after whatever the file already contains and counts its size from 0, so the existing content does not count toward maxSize; while its own lines fit in maxSize, counted in UTF-16 code units, no other file is touched and nothing is reported. *)
Theorem file_log_appends_to_existing_file c h fs es ls :
  Forall (fun e => (lvl (file_level c) <= lvl (level e))%Z) es ->
  lines c h es = Ok ls -> (total_units ls <= maxSize c)%Z ->
  (exists w', settles_seq c h es (new_world fs) w') /\
  forall w', settles_seq c h es (new_world fs) w' ->
    pending w' = [] /\ reports w' = [] /\ currentSize (state w') = total_units ls /\
    (forall n, n <> filename c -> files w' n = fs n) /\
    files w' (filename c) = match ls with
                            | [] => fs (filename c)
                            | _ => Some (content fs (filename c) ++ concat_all ls)
                            end.
Proof.
  intros Hl Hls Hs.
  destruct (seq_appends c h es (new_world fs) ls eq_refl Hl Hls ltac:(simpl; lia))
    as [fs' [R [O [E1 E2]]]].
  split; [eexists; exact R|]. intros w' R'.
  rewrite <- (settles_seq_det _ _ _ _ _ _ R R'). simpl.
  split; [reflexivity|split; [reflexivity|split; [reflexivity|split; [exact O|]]]].
  destruct ls as [|l ls']; [apply E1; reflexivity|apply E2; discriminate].
Qed.

Lemma file_log_appends_to_existing_file_witness :
  let c := mkFileConfig INFO "app.log" 1000 5 false in
  let fs := fun n => if String.eqb n "app.log" then Some (Samples.s_e0 ++ Formatters.nl) else None in
  exists ls,
    (Forall (fun e => (lvl (file_level c) <= lvl (level e))%Z) [Samples.e0] /\
     lines c [] [Samples.e0] = Ok ls /\ (total_units ls <= maxSize c)%Z) /\
    exists w', settles_seq c [] [Samples.e0] (new_world fs) w' /\
      currentSize (state w') = total_units ls /\
      files w' (filename c) = Some (content fs (filename c) ++ concat_all ls).
Proof.
  intros c fs. eexists.
  assert (Hl : Forall (fun e => (lvl (file_level c) <= lvl (level e))%Z) [Samples.e0])
    by (constructor; [simpl; lia|constructor]).
  assert (Hls : lines c [] [Samples.e0] = Ok [Samples.s_e0 ++ Formatters.nl]) by (vm_compute; reflexivity).
  assert (Hs : (total_units [Samples.s_e0 ++ Formatters.nl] <= maxSize c)%Z) by (vm_compute; discriminate).
  split; [split; [exact Hl|split; [exact Hls|exact Hs]]|].
  destruct (file_log_appends_to_existing_file c [] fs [Samples.e0] _ Hl Hls Hs) as [[w' R] All].
  exists w'. destruct (All w' R) as [_ [_ [S [_ A]]]]. split; [exact R|split; [exact S|exact A]].
Defined.

(** X17: JsonFormatter.format never produces a line break, even for messages or stack traces that contain one, so each entry of a JSON log file is exactly one line. *)
Theorem json_format_one_line h e s :
  Formatters.JsonFormatter_format h e = Ok s -> no_newline s = true.
Proof. apply stringify_literal_one_line. Qed.

Lemma json_format_one_line_witness :
  let e := mkEntry ERROR ("two" ++ chr 10 ++ "lines") Samples.now0 None
             (Some (mkError "Error" "boom" (Some ("Error: boom" ++ chr 10 ++ "    at f")))) None in
  exists s, Formatters.JsonFormatter_format [] e = Ok s /\ no_newline s = true.
Proof.
  intros e. eexists. split; [vm_compute; reflexivity|].
  apply (json_format_one_line [] e). vm_compute. reflexivity.
Defined.

End FileProps.

Module Logger2Props.
Import Pipeline Logger2 Logger2Facts.

(** X18: With no middleware, the Logger of loggers/index.ts (the one the factory builds) calls log on every transport for an entry that passes its silent flag and level, whatever the transport's own level; the entry's meta is the logger's defaultMeta object itself. *)
Theorem index_logger_calls_every_transport lg l msg ctx err now i t :
  middleware lg = [] -> silent lg = false -> (lvl (logger_level lg) <= lvl l)%Z ->
  nth_error (transports lg) i = Some t ->
  exists r, Logger2.log lg l msg ctx err now = Some (Normal r) /\
    In (Delivered i (name t) (mkEntry l msg now ctx err (Some (defaultMeta lg)))) (trace r).
Proof.
  intros Hm Hs Hl Ht. unfold Logger2.log. rewrite Hs, Hm.
  replace (lvl l <? lvl (logger_level lg))%Z with false by (symmetry; apply Z.ltb_ge; exact Hl).
  pose proof (fan_all_delivered (transports lg) 0 i t
                (mkEntry l msg now ctx err (Some (defaultMeta lg))) Ht) as D.
  unfold Logger2.processEntry. simpl. unfold Logger2.dispatch, Logger2.writeToTransports. simpl.
  destruct (fan_all 0 (transports lg) (mkEntry l msg now ctx err (Some (defaultMeta lg))))
    as [now1 later1] eqn:F.
  simpl in D. eexists. split; [reflexivity|]. simpl. right. exact D.
Qed.

Lemma index_logger_calls_every_transport_witness :
  let t := mkTransport "audit" (Some FATAL) (fun _ => Returned) in
  let lg := mkLogger INFO [t] 7 false false [] in
  (middleware lg = [] /\ silent lg = false /\ (lvl (logger_level lg) <= lvl INFO)%Z /\
   nth_error (transports lg) 0 = Some t) /\
  passes_transport t (mkEntry INFO "hello" Samples.now0 None None (Some 7)) = false /\
  exists r, Logger2.log lg INFO "hello" None None Samples.now0 = Some (Normal r) /\
    In (Delivered 0 (name t) (mkEntry INFO "hello" Samples.now0 None None (Some (defaultMeta lg)))) (trace r).
Proof.
  intros t lg. split; [split; [reflexivity|split; [reflexivity|split; [simpl; lia|reflexivity]]]|].
  split; [reflexivity|].
  apply (index_logger_calls_every_transport lg INFO "hello" None None Samples.now0 0 t);
    [reflexivity|reflexivity|simpl; lia|reflexivity].
Defined.

End Logger2Props.

Module CloseProps.
Import Pipeline Closing CloseFacts Views.

(** X19: close() calls close on every transport that has one, whatever earlier transports did; a close that throws or rejects is reported with console.error and does not stop the others. *)
Theorem close_reaches_every_transport ts i t :
  nth_error ts i = Some t ->
  (forall n, In (CloseCalled i n) (Closing.close ts) <-> cclose t <> None /\ n = name (ctransport t)) /\
  (In (CloseSettled i) (Closing.close ts) <-> cclose t = Some (Pending true)) /\
  (In (CloseReported i) (Closing.close ts) <->
     cclose t = Some RaisedSync \/ cclose t = Some (Pending false)).
Proof.
  intros H.
  assert (E : Closing.close ts = events (close_all 0 ts))
    by (unfold Closing.close, events; destruct (close_all 0 ts); reflexivity).
  rewrite E. split; [|split].
  - intros n. rewrite (close_all_at ts 0 i t (CloseCalled i n) H eq_refl).
    unfold close_one, events. destruct (cclose t) as [[| |[]]|]; simpl;
      split; intros X; try tauto;
      repeat match goal with
             | X : _ \/ _ |- _ => destruct X as [X|X]
             | X : CloseCalled _ _ = CloseCalled _ _ |- _ => injection X as <-
             | X : _ /\ _ |- _ => destruct X as [X ->]
             end;
      try discriminate; try contradiction; try tauto;
      (split; [discriminate|reflexivity]).
  - rewrite (close_all_at ts 0 i t (CloseSettled i) H eq_refl).
    unfold close_one, events. destruct (cclose t) as [[| |[]]|]; simpl;
      split; intros X; try tauto;
      repeat match goal with X : _ \/ _ |- _ => destruct X as [X|X] end;
      try discriminate; try contradiction; reflexivity.
  - rewrite (close_all_at ts 0 i t (CloseReported i) H eq_refl).
    unfold close_one, events. destruct (cclose t) as [[| |[]]|]; simpl;
      split; intros X; try tauto;
      repeat match goal with X : _ \/ _ |- _ => destruct X as [X|X] end;
      try discriminate; try contradiction; tauto.
Qed.

Lemma close_reaches_every_transport_witness :
  let ts := [mkClosable Samples.sink_all (Some RaisedSync);
             mkClosable (mkTransport "http" None (fun _ => Returned)) (Some (Pending true))] in
  nth_error ts 1 = Some (mkClosable (mkTransport "http" None (fun _ => Returned)) (Some (Pending true))) /\
  In (CloseCalled 1 "http") (Closing.close ts) /\ In (CloseSettled 1) (Closing.close ts).
Proof.
  intros ts.
  destruct (close_reaches_every_transport ts 1 _ eq_refl) as [A [B _]].
  split; [reflexivity|]. split.
  - apply A. split; [discriminate|reflexivity].
  - apply B. reflexivity.
Defined.

End CloseProps.

Module BuiltinProps.
Import Pipeline Builtins BuiltinFacts.

(** X20: A chain of middleware that each change the entry and then call next() once, as requestId, timestamp, sanitize and caller do, runs them in order on the entry as the previous ones left it, then hands the result to the transports exactly once. *)
Theorem builtin_middleware_chain fs ts e :
  Pipeline.processEntry (map pass_through fs) ts e =
  Normal (mkRun (List.length fs) (apply_all fs e)
            (invocations 0 fs e ++ fst (Pipeline.writeToTransports ts (apply_all fs e)))
            (snd (Pipeline.writeToTransports ts (apply_all fs e)))).
Proof.
  unfold Pipeline.processEntry. rewrite length_map.
  rewrite (next_pass fs ts (List.length fs) 0 e [] [] (List.length fs) eq_refl (le_n _)).
  reflexivity.
Qed.

End BuiltinProps.

Module FactoryProps.
Import Factory JsMapFacts SpreadFacts FactoryFacts.
Local Open Scope string_scope.

Ltac nodup_keys := repeat (apply NoDup_cons; [simpl; intuition discriminate|]); apply NoDup_nil.

(** X21: create(name, config) gives the logger a defaultMeta whose logger key is the name (overriding both configurations) and whose other keys take config's value over the factory default's; its level is config's, INFO when config sets level to undefined, and otherwise the default's or INFO. *)
Theorem create_merges_config f name cfg k :
  NoDup (JsMap.keys (meta_props (c_defaultMeta (defaultConfig f)))) ->
  NoDup (JsMap.keys (meta_props (c_defaultMeta cfg))) ->
  exists s, logger_at (snd (create f name (Some cfg))) (fst (create f name (Some cfg))) = Some s /\
    JsMap.get (s_defaultMeta s) "logger" = Some (JStr name) /\
    (k <> "logger" ->
     JsMap.get (s_defaultMeta s) k =
       match JsMap.get (meta_props (c_defaultMeta cfg)) k with
       | Some v => Some v
       | None => JsMap.get (meta_props (c_defaultMeta (defaultConfig f))) k
       end) /\
    s_level s = match c_level cfg with
                | Absent => or_default (c_level (defaultConfig f)) INFO
                | Undef => INFO
                | Def l => l
                end.
Proof.
  intros Hd Ho. eexists. split; [apply logger_at_create|]. simpl. split; [|split].
  - apply get_set_same.
  - intros Hk. rewrite get_set_other by exact Hk. rewrite get_assign by exact Ho.
    destruct (JsMap.get (meta_props (c_defaultMeta cfg)) k); [reflexivity|].
    rewrite get_assign by exact Hd. destruct (JsMap.get _ k); reflexivity.
  - destruct (c_level cfg); reflexivity.
Qed.

Lemma create_merges_config_witness :
  let f := mkFactory (mkConfig Absent Absent (Def [("service", JStr "api"); ("region", JStr "eu")])
                               Absent Absent) [] [] in
  let cfg := mkConfig Undef Absent (Def [("service", JStr "web"); ("logger", JStr "other")]) Absent Absent in
  (NoDup (JsMap.keys (meta_props (c_defaultMeta (defaultConfig f)))) /\
   NoDup (JsMap.keys (meta_props (c_defaultMeta cfg)))) /\
  exists s, logger_at (snd (create f "db" (Some cfg))) (fst (create f "db" (Some cfg))) = Some s /\
    JsMap.get (s_defaultMeta s) "logger" = Some (JStr "db") /\
    JsMap.get (s_defaultMeta s) "service" = Some (JStr "web") /\
    JsMap.get (s_defaultMeta s) "region" = Some (JStr "eu") /\
    s_level s = INFO.
Proof.
  intros f cfg.
  assert (Hd : NoDup (JsMap.keys (meta_props (c_defaultMeta (defaultConfig f))))) by nodup_keys.
  assert (Ho : NoDup (JsMap.keys (meta_props (c_defaultMeta cfg)))) by nodup_keys.
  split; [split; assumption|].
  destruct (create_merges_config f "db" cfg "service" Hd Ho) as [s [A [B [C D]]]].
  destruct (create_merges_config f "db" cfg "region" Hd Ho) as [s' [A' [_ [C' _]]]].
  rewrite A in A'. injection A' as <-.
  exists s. split; [exact A|]. split; [exact B|]. split; [|split].
  - rewrite C by discriminate. reflexivity.
  - rewrite C' by discriminate. reflexivity.
  - exact D.
Defined.

(** X22: In a factory whose registry is well formed (one entry per name, no logger under two names, a property create keeps), creating a logger under a name already in use replaces the registered one in place: the name list is unchanged (a new name is appended), get(name) returns the new logger without creating another, and closeAll() no longer closes the replaced logger. *)
Theorem create_replaces_same_name f name cfg :
  well_formed f ->
  let '(id, f') := create f name cfg in
  well_formed f' /\
  getLoggerNames f' = (if existsb (String.eqb name) (getLoggerNames f)
                       then getLoggerNames f else (getLoggerNames f ++ [name])%list) /\
  (forall cfg', Factory.get f' name cfg' = (id, f')) /\
  (forall old, JsMap.get (loggers f) name = Some old -> ~ In old (fst (closeAll f'))).
Proof.
  intros [Hnd [Hlt Hinj]]. unfold create. simpl.
  set (id := List.length (created f)).
  assert (Hlt' : forall n x, In (n, x) (JsMap.set (loggers f) name id) ->
                 (n = name /\ x = id) \/ (n <> name /\ In (n, x) (loggers f))).
  { intros n x H. destruct (in_set_nodup _ name id n x Hnd H) as [[-> ->]|[Hn Hin]];
      [left|right]; auto. }
  split; [|split; [|split]].
  - split; [|split].
    + apply keys_set_nodup. exact Hnd.
    + intros n x H. simpl. rewrite length_app. simpl.
      destruct (Hlt' n x H) as [[_ ->]|[_ Hin]]; [unfold id; lia|].
      specialize (Hlt n x Hin). lia.
    + intros n1 n2 x H1 H2.
      destruct (Hlt' n1 x H1) as [[E1 X1]|[N1 I1]];
        destruct (Hlt' n2 x H2) as [[E2 X2]|[N2 I2]].
      * congruence.
      * subst x. specialize (Hlt n2 id I2). unfold id in Hlt. lia.
      * subst x. specialize (Hlt n1 id I1). unfold id in Hlt. lia.
      * exact (Hinj n1 n2 x I1 I2).
  - unfold getLoggerNames. simpl. apply keys_set.
  - intros cfg'. unfold Factory.get. simpl. rewrite get_set_same. reflexivity.
  - intros old Hold Hin. simpl in Hin. apply in_map_iff in Hin as [[n x] [Ex Hin]].
    simpl in Ex. subst x. apply get_In in Hold.
    destruct (Hlt' n old Hin) as [[_ ->]|[Hn I]].
    + specialize (Hlt name id Hold). unfold id in Hlt. lia.
    + exact (Hn (Hinj n name old I Hold)).
Qed.

Lemma create_replaces_same_name_witness :
  let f := mkFactory empty_config [("api", 0)] [construct (merge empty_config None "api")] in
  well_formed f /\
  (let '(id, f') := create f "api" None in
   well_formed f' /\
   getLoggerNames f' = (if existsb (String.eqb "api") (getLoggerNames f)
                        then getLoggerNames f else (getLoggerNames f ++ ["api"])%list) /\
   (forall cfg', Factory.get f' "api" cfg' = (id, f')) /\
   (forall old, JsMap.get (loggers f) "api" = Some old -> ~ In old (fst (closeAll f')))).
Proof.
  intros f.
  assert (W : well_formed f).
  { split; [nodup_keys|split].
    - intros n x [[= <- <-]|[]]. simpl. lia.
    - intros n1 n2 x [E1|[]] [E2|[]]. congruence. }
  split; [exact W|]. exact (create_replaces_same_name f "api" None W).
Defined.

(** X23: createTestLogger builds a silent logger at level TRACE with no transports, so none of its log calls gets past the first check. *)
Theorem test_logger_is_silent f name realize a l msg ctx err now :
  exists s, logger_at (snd (createTestLogger f name)) (fst (createTestLogger f name)) = Some s /\
    s_level s = TRACE /\ s_transports s = [] /\ s_silent s = true /\
    Logger2.log (instantiate realize a s) l msg ctx err now = None.
Proof.
  eexists. split; [apply logger_at_create|]. repeat split.
Qed.

(** X24: createProductionLogger builds a logger at INFO with exitOnError true whose first transport is a JSON console; it has a file transport (INFO, JSON, 50 MiB, 10 files) exactly when logFile is a non-empty string. *)
Theorem production_logger_config f name logFile :
  exists s, logger_at (snd (createProductionLogger f name logFile))
                      (fst (createProductionLogger f name logFile)) = Some s /\
    s_level s = INFO /\ s_exitOnError s = true /\
    hd_error (s_transports s) = Some (ConsoleDesc INFO false Absent (Def true)) /\
    (forall c, In (FileDesc c) (s_transports s) <->
       exists file, logFile = Some file /\ file <> "" /\
                    c = FileSink.mkFileConfig INFO file (50 * 1024 * 1024) 10 true).
Proof.
  eexists. split; [apply logger_at_create|]. simpl. split; [reflexivity|split; [reflexivity|]].
  destruct logFile as [file|].
  - destruct (String.eqb_spec file "") as [->|Hne]; simpl; (split; [reflexivity|]); intros c.
    + split; [intros [X|[]]; discriminate|intros [x [[= <-] [X _]]]; exfalso; exact (X eq_refl)].
    + split.
      * intros [X|[X|[]]]; [discriminate|]. injection X as <-. exists file. auto.
      * intros [x [[= <-] [_ ->]]]. right. left. reflexivity.
  - simpl. split; [reflexivity|]. intros c.
    split; [intros [X|[]]; discriminate|intros [x [X _]]; discriminate].
Qed.

(** X25: createLogger picks the configuration from env, else NODE_ENV, else development: production writes to ./logs/app.log with exitOnError, test is silent with no transports, and any other value (the empty string included) gives the DEBUG console logger. *)
Theorem createLogger_by_environment f name env node_env :
  exists s, logger_at (snd (createLogger f name env node_env))
                      (fst (createLogger f name env node_env)) = Some s /\
    (environment env node_env = "production" ->
       s_level s = INFO /\ s_exitOnError s = true /\
       In (FileDesc (FileSink.mkFileConfig INFO "./logs/app.log" (50 * 1024 * 1024) 10 true))
          (s_transports s)) /\
    (environment env node_env = "test" -> s_silent s = true /\ s_transports s = []) /\
    (environment env node_env <> "production" -> environment env node_env <> "test" ->
       s_level s = DEBUG /\ s_transports s = [ConsoleDesc DEBUG true (Def true) Absent]).
Proof.
  unfold createLogger.
  destruct (String.eqb_spec (environment env node_env) "production") as [Ep|Np];
    [|destruct (String.eqb_spec (environment env node_env) "test") as [Et|Nt]];
    (eexists; split; [apply logger_at_create|]); simpl.
  - split; [intros _; split; [reflexivity|split; [reflexivity|right; left; reflexivity]]|].
    split; intros X; [rewrite Ep in X; discriminate|]. exfalso. exact (X Ep).
  - split; [intros X; rewrite Et in X; discriminate|].
    split; [intros _; split; reflexivity|]. intros _ X. exfalso. exact (X Et).
  - split; [intros X; exfalso; exact (Np X)|]. split; [intros X; exfalso; exact (Nt X)|].
    intros _ _. split; reflexivity.
Qed.

End FactoryProps.

Module ChildMetaProps.
Import ChildMeta SpreadFacts.
Local Open Scope string_scope.

(** X26: A child logger's defaultMeta has, for each key, the value given to child() if there is one and otherwise the parent's value. *)
Theorem child_meta_lookup parent meta k :
  NoDup (JsMap.keys parent) -> NoDup (JsMap.keys meta) ->
  JsMap.get (child_meta parent meta) k =
  match JsMap.get meta k with Some v => Some v | None => JsMap.get parent k end.
Proof.
  intros Hp Hm. unfold child_meta. rewrite get_assign by exact Hm.
  destruct (JsMap.get meta k); [reflexivity|]. rewrite get_assign by exact Hp.
  destruct (JsMap.get parent k); reflexivity.
Qed.

Lemma child_meta_lookup_witness :
  let parent := [("service", JStr "api"); ("logger", JStr "app")] in
  let meta := [("requestId", JStr "r1"); ("service", JStr "auth")] in
  (NoDup (JsMap.keys parent) /\ NoDup (JsMap.keys meta)) /\
  JsMap.get (child_meta parent meta) "service" = Some (JStr "auth") /\
  JsMap.get (child_meta parent meta) "logger" = Some (JStr "app").
Proof.
  intros parent meta.
  assert (Hp : NoDup (JsMap.keys parent)) by FactoryProps.nodup_keys.
  assert (Hm : NoDup (JsMap.keys meta)) by FactoryProps.nodup_keys.
  split; [split; assumption|]. split.
  - rewrite (child_meta_lookup parent meta "service" Hp Hm). reflexivity.
  - rewrite (child_meta_lookup parent meta "logger" Hp Hm). reflexivity.
Defined.

End ChildMetaProps.

Module ConsoleProps.
Import ConsoleFmt FileSeqFacts.
Local Open Scope string_scope.

(** X27: Without colours and timestamps, an entry with an empty (or no) context, no error and an empty meta object is printed as '[<LEVEL padded to 5>] <message> []', or as '[<LEVEL padded to 5>] []' when the message is empty: the empty context is left out but the empty meta still prints as []. *)
Theorem console_empty_meta_printed paint local_time h e m :
  match context e with Some c => obj_at h c = [] | None => True end ->
  error e = None -> meta e = Some m -> obj_at h m = [] ->
  ConsoleFmt.format false false paint local_time h e =
    Ok ("[" ++ padEnd5 (level_name (level e)) ++ "]" ++
        (if String.eqb (message e) "" then "" else " " ++ message e) ++ " []").
Proof.
  intros Hc He Hm Ho. unfold ConsoleFmt.format.
  assert (C : match context e with Some c => formatContext false paint h c | None => Ok "" end = Ok "").
  { destruct (context e) as [c|]; [|reflexivity]. unfold formatContext. rewrite Hc. reflexivity. }
  rewrite C, He, Hm. unfold formatMeta. rewrite Ho. simpl.
  destruct (message e) as [|x r] eqn:M; simpl;
    unfold formatLevel, style; rewrite <- !str_app_assoc; reflexivity.
Qed.

Lemma console_empty_meta_printed_witness :
  let e := mkEntry WARN "disk low" Samples.now0 None None (Some 0) in
  let e' := mkEntry INFO "" Samples.now0 None None (Some 0) in
  ((match context e with Some c => obj_at [(0, [])] c = [] | None => True end) /\
   error e = None /\ meta e = Some 0 /\ obj_at [(0, [])] 0 = []) /\
  ConsoleFmt.format false false (fun _ s => s) (fun t => t) [(0, [])] e = Ok "[WARN ] disk low []" /\
  ConsoleFmt.format false false (fun _ s => s) (fun t => t) [(0, [])] e' = Ok "[INFO ] []".
Proof.
  intros e e'.
  assert (H : (match context e with Some c => obj_at [(0, [])] c = [] | None => True end) /\
              error e = None /\ meta e = Some 0 /\ obj_at [(0, [])] 0 = [])
    by (repeat split).
  split; [exact H|].
  destruct H as [H1 [H2 [H3 H4]]]. split.
  - exact (console_empty_meta_printed (fun _ s => s) (fun t => t) [(0, [])] e 0 H1 H2 H3 H4).
  - exact (console_empty_meta_printed (fun _ s => s) (fun t => t) [(0, [])] e' 0 I eq_refl eq_refl eq_refl).
Defined.

End ConsoleProps.

